(** * words-backend: the vocabulary API, embedded and verified

    A shallow embedding of the Express handlers of the vocabulary backend:

    - the enriched bulk route (helper [getGroupNamesAndSentences] and
      POST /api/vocabulary/bulk, the variant with AI grouping and sentences),
    - the groups view (GET /api/vocabulary/groups),
    - the listing route with pages (GET /api/vocabulary) and the delete
      route (DELETE /api/vocabulary/:word),
    - the chunked bulk route of server.js (batches of 50 with an offset).

    A string is the UTF-8 bytes of a JavaScript text.

    The Supabase client, the Gemini model and the JavaScript runtime are
    interfaces of the program: they are a type class here, and every general
    theorem holds for all of their implementations.  Handlers are written in
    a small state-and-exception monad over the world those services live in
    and over the console. *)

From Stdlib Require Import ZArith Ascii String.
From stdpp Require Import base option list strings gmap sorting.

#[local] Set Warnings "-register-all".

Local Open Scope Z_scope.

(** ** JavaScript values *)

Module Js.

(** The values a parsed JSON text (or a property read) can be.  A number is
    kept as the text of its literal: the handlers never compute with one. *)
Inductive JsVal : Type :=
| JUndefined
| JNull
| JBool (b : bool)
| JNum (literal : string)
| JStr (s : string)
| JArr (items : list JsVal)
| JObj (fields : list (string * JsVal)).

(** What a JavaScript expression does: throw (the error's message) or
    return. *)
Inductive Outcome (A : Type) : Type :=
| Throws (msg : string)
| Returns (a : A).
Global Arguments Throws {A} msg.
Global Arguments Returns {A} a.

(** An own property of an object literal.  JSON.parse keeps the last of
    several members with one key. *)
Fixpoint obj_get (fields : list (string * JsVal)) (k : string) : option JsVal :=
  match fields with
  | [] => None
  | (k', v) :: rest =>
      match obj_get rest k with
      | Some v' => Some v'
      | None => if String.eqb k' k then Some v else None
      end
  end.

(** [v.k] for a key that no prototype defines ([word], [group_name],
    [sentence]): only an object literal can have it; a read on null or
    undefined throws. *)
Definition get_prop (v : JsVal) (k : string) : Outcome JsVal :=
  match v with
  | JUndefined =>
      Throws ("Cannot read properties of undefined (reading '" +:+ k +:+ "')")
  | JNull =>
      Throws ("Cannot read properties of null (reading '" +:+ k +:+ "')")
  | JObj fields => Returns (default JUndefined (obj_get fields k))
  | _ => Returns JUndefined
  end.

(** [v === s] for a string [s]. *)
Definition strict_eq_string (v : JsVal) (s : string) : bool :=
  match v with
  | JStr s' => String.eqb s' s
  | _ => false
  end.

(** ** Strings *)

(** [s.includes(sub)] *)
Fixpoint includes (s sub : string) : bool :=
  String.prefix sub s ||
  match s with
  | EmptyString => false
  | String _ s' => includes s' sub
  end.

Definition newline : ascii := "010"%char.
Definition dquote : ascii := "034"%char.

(** [s.replace(/pat\n?/g, '')] for a literal, non-empty [pat]: one pass from
    the left; [skip] counts the characters of the current match still to
    drop, [opt_nl] says that a match has just ended, so that one newline
    belongs to it. *)
Fixpoint remove_all (pat s : string) (skip : nat) (opt_nl : bool) : string :=
  match s with
  | EmptyString => EmptyString
  | String c s' =>
      match skip with
      | S k => remove_all pat s' k opt_nl
      | O =>
          if opt_nl && Ascii.eqb c newline then remove_all pat s' 0 false
          else if String.prefix pat s
               then remove_all pat s' (String.length pat - 1) true
               else String c (remove_all pat s' 0 false)
      end
  end.

(** White space and line terminators of JavaScript.  A string is the UTF-8
    bytes of the text, so the characters beyond ASCII are two or three bytes:
    U+00A0 (C2 A0), U+1680 (E1 9A 80), U+2000 to U+200A (E2 80 80 to 8A),
    U+2028 and U+2029 (E2 80 A8, A9), U+202F (E2 80 AF), U+205F (E2 81 9F),
    U+3000 (E3 80 80) and U+FEFF (EF BB BF). *)
Definition is_space (c : ascii) : bool := Ascii.is_space c.

Definition is_space2 (c1 c2 : ascii) : bool :=
  (N_of_ascii c1 =? 194)%N && (N_of_ascii c2 =? 160)%N.

Definition is_space3 (c1 c2 c3 : ascii) : bool :=
  let '(b1, b2, b3) := (N_of_ascii c1, N_of_ascii c2, N_of_ascii c3) in
  ((b1 =? 225) && (b2 =? 154) && (b3 =? 128) ||
   (b1 =? 226) && (b2 =? 128) &&
     ((128 <=? b3) && (b3 <=? 138) || (b3 =? 168) || (b3 =? 169) || (b3 =? 175)) ||
   (b1 =? 226) && (b2 =? 129) && (b3 =? 159) ||
   (b1 =? 227) && (b2 =? 128) && (b3 =? 128) ||
   (b1 =? 239) && (b2 =? 187) && (b3 =? 191))%N.

(** [s.trimStart()] *)
Fixpoint trim_start (s : string) : string :=
  match s with
  | EmptyString => EmptyString
  | String c1 r1 =>
      if is_space c1 then trim_start r1
      else match r1 with
           | EmptyString => s
           | String c2 r2 =>
               if is_space2 c1 c2 then trim_start r2
               else match r2 with
                    | EmptyString => s
                    | String c3 r3 => if is_space3 c1 c2 c3 then trim_start r3 else s
                    end
           end
  end.

(** [s.trimEnd()]: the text up to the point from which only white space
    follows. *)
Fixpoint trim_end (s : string) : string :=
  match s with
  | EmptyString => EmptyString
  | String c s' =>
      match trim_start s with
      | EmptyString => EmptyString
      | _ => String c (trim_end s')
      end
  end.

(** [s.trim()] *)
Definition trim (s : string) : string := trim_end (trim_start s).

(** [xs.join(sep)] *)
Fixpoint join (sep : string) (xs : list string) : string :=
  match xs with
  | [] => EmptyString
  | [x] => x
  | x :: rest => x +:+ sep +:+ join sep rest
  end.

Definition quoted (s : string) : string :=
  String dquote s +:+ String dquote EmptyString.

Definition lines (ls : list string) : string :=
  join (String newline EmptyString) ls.

End Js.
Export Js.

(** ** A reference reader of JSON texts

    [JSON.parse] belongs to the runtime, not to the repository: the handlers
    are stated over any implementation of it (class [Platform] below).  This
    reader is the one the concrete worlds of the examples run: the JSON grammar
    of ECMA-404 on the UTF-8 bytes of the text. *)

Module Json.

Definition is_ws (c : ascii) : bool :=
  match c with
  | " " | "009" | "010" | "013" => true
  | _ => false
  end%char.

Definition is_digit (c : ascii) : bool :=
  match Ascii.is_nat c with Some _ => true | None => false end.

Fixpoint skip_ws (s : string) : string :=
  match s with
  | String c s' => if is_ws c then skip_ws s' else s
  | EmptyString => s
  end.

Definition unescape (c : ascii) : option ascii :=
  match c with
  | "034" => Some "034"
  | "\" => Some "\"
  | "/" => Some "/"
  | "b" => Some "008"
  | "f" => Some "012"
  | "n" => Some "010"
  | "r" => Some "013"
  | "t" => Some "009"
  | _ => None
  end%char.

Definition hex_digit (c : ascii) : option N :=
  let n := N_of_ascii c in
  (if (48 <=? n) && (n <=? 57) then Some (n - 48)
   else if (97 <=? n) && (n <=? 102) then Some (n - 87)
   else if (65 <=? n) && (n <=? 70) then Some (n - 55)
   else None)%N.

(** The code unit of the four hex digits of a [\u] escape. *)
Definition hex4 (h1 h2 h3 h4 : ascii) : option N :=
  d1 ← hex_digit h1; d2 ← hex_digit h2; d3 ← hex_digit h3; d4 ← hex_digit h4;
  Some (((d1 * 16 + d2) * 16 + d3) * 16 + d4)%N.

(** What a string literal is made of: a byte of the text, or the code unit
    of a [\u] escape. *)
Inductive piece : Type :=
| Byte (c : ascii)
| Unit16 (n : N).

(** The pieces of a string literal after its opening quote, and the text
    after its closing quote. *)
Fixpoint read_pieces (s : string) : option (list piece * string) :=
  match s with
  | EmptyString => None
  | String c s' =>
      if Ascii.eqb c dquote then Some ([], s')
      else if Ascii.eqb c "\"%char then
        match s' with
        | EmptyString => None
        | String e s'' =>
            if Ascii.eqb e "u"%char then
              match s'' with
              | String h1 (String h2 (String h3 (String h4 s4))) =>
                  match hex4 h1 h2 h3 h4, read_pieces s4 with
                  | Some n, Some (body, rest) => Some (Unit16 n :: body, rest)
                  | _, _ => None
                  end
              | _ => None
              end
            else
              match unescape e, read_pieces s'' with
              | Some c', Some (body, rest) => Some (Byte c' :: body, rest)
              | _, _ => None
              end
        end
      else if (nat_of_ascii c <? 32)%nat then None
      else match read_pieces s' with
           | Some (body, rest) => Some (Byte c :: body, rest)
           | None => None
           end
  end.

Definition byte (n : N) : ascii := ascii_of_N n.

(** The UTF-8 bytes of a code point. *)
Definition utf8 (cp : N) : string :=
  (if cp <? 128 then String (byte cp) EmptyString
   else if cp <? 2048 then
     String (byte (192 + cp / 64)) (String (byte (128 + cp mod 64)) EmptyString)
   else if cp <? 65536 then
     String (byte (224 + cp / 4096))
       (String (byte (128 + (cp / 64) mod 64))
          (String (byte (128 + cp mod 64)) EmptyString))
   else
     String (byte (240 + cp / 262144))
       (String (byte (128 + (cp / 4096) mod 64))
          (String (byte (128 + (cp / 64) mod 64))
             (String (byte (128 + cp mod 64)) EmptyString))))%N.

Definition is_high (n : N) : bool := ((55296 <=? n) && (n <=? 56319))%N.
Definition is_low (n : N) : bool := ((56320 <=? n) && (n <=? 57343))%N.

(** The text of the pieces: a high surrogate followed by a low one is one
    code point; a surrogate without its partner is kept as the three bytes
    of its code unit. *)
Fixpoint decode (ps : list piece) : string :=
  match ps with
  | [] => EmptyString
  | Byte c :: rest => String c (decode rest)
  | Unit16 hi :: rest =>
      match rest with
      | Unit16 lo :: rest' =>
          if is_high hi && is_low lo
          then utf8 (65536 + (hi - 55296) * 1024 + (lo - 56320))%N +:+ decode rest'
          else utf8 hi +:+ decode rest
      | _ => utf8 hi +:+ decode rest
      end
  end.

(** The characters of a string literal after its opening quote, and the
    text after its closing quote. *)
Definition read_chars (s : string) : option (string * string) :=
  '(ps, rest) ← read_pieces s; Some (decode ps, rest).

Fixpoint read_digits (s : string) : string * string :=
  match s with
  | String c s' =>
      if is_digit c then let '(ds, rest) := read_digits s' in (String c ds, rest)
      else (EmptyString, s)
  | EmptyString => (EmptyString, s)
  end.

Definition read_int (s : string) : option (string * string) :=
  match read_digits s with
  | (EmptyString, _) => None
  | (String "0" (String _ _), _) => None
  | (ds, rest) => Some (ds, rest)
  end%char.

Definition read_frac (s : string) : option (string * string) :=
  match s with
  | String "." s' =>
      match read_digits s' with
      | (EmptyString, _) => None
      | (ds, rest) => Some (String "." ds, rest)
      end
  | _ => Some (EmptyString, s)
  end%char.

Definition read_exp (s : string) : option (string * string) :=
  match s with
  | String e s' =>
      if Ascii.eqb e "e" || Ascii.eqb e "E" then
        let '(sign, s'') :=
          match s' with
          | String "+" r => (String "+" EmptyString, r)
          | String "-" r => (String "-" EmptyString, r)
          | _ => (EmptyString, s')
          end%char in
        match read_digits s'' with
        | (EmptyString, _) => None
        | (ds, rest) => Some (String e (sign +:+ ds), rest)
        end
      else Some (EmptyString, s)
  | EmptyString => Some (EmptyString, s)
  end%char.

Definition read_number (s : string) : option (string * string) :=
  let '(sign, s1) :=
    match s with
    | String "-" r => (String "-" EmptyString, r)
    | _ => (EmptyString, s)
    end%char in
  '(i, s2) ← read_int s1;
  '(f, s3) ← read_frac s2;
  '(e, s4) ← read_exp s3;
  Some (sign +:+ i +:+ f +:+ e, s4).

Definition read_word (w : string) (v : JsVal) (s : string) : option (JsVal * string) :=
  if String.prefix w s
  then Some (v, String.substring (String.length w) (String.length s - String.length w) s)
  else None.

Fixpoint read_value (fuel : nat) (s : string) : option (JsVal * string) :=
  match fuel with
  | O => None
  | S n =>
      match skip_ws s with
      | EmptyString => None
      | String c s' as t =>
          if Ascii.eqb c "n" then read_word "null" JNull t
          else if Ascii.eqb c "t" then read_word "true" (JBool true) t
          else if Ascii.eqb c "f" then read_word "false" (JBool false) t
          else if Ascii.eqb c dquote then
            '(body, rest) ← read_chars s'; Some (JStr body, rest)
          else if Ascii.eqb c "[" then
            match skip_ws s' with
            | String "]" rest => Some (JArr [], rest)
            | _ => '(items, rest) ← read_items n s'; Some (JArr items, rest)
            end
          else if Ascii.eqb c "{" then
            match skip_ws s' with
            | String "}" rest => Some (JObj [], rest)
            | _ => '(fields, rest) ← read_members n s'; Some (JObj fields, rest)
            end
          else '(lit, rest) ← read_number t; Some (JNum lit, rest)
      end
  end%char
with read_items (fuel : nat) (s : string) : option (list JsVal * string) :=
  match fuel with
  | O => None
  | S n =>
      '(v, rest) ← read_value n s;
      match skip_ws rest with
      | String "," rest' => '(vs, rest'') ← read_items n rest'; Some (v :: vs, rest'')
      | String "]" rest' => Some ([v], rest')
      | _ => None
      end
  end%char
with read_members (fuel : nat) (s : string) : option (list (string * JsVal) * string) :=
  match fuel with
  | O => None
  | S n =>
      match skip_ws s with
      | String q s' =>
          if Ascii.eqb q dquote then
            '(k, rest) ← read_chars s';
            match skip_ws rest with
            | String ":" rest' =>
                '(v, rest'') ← read_value n rest';
                match skip_ws rest'' with
                | String "," r => '(fs, r') ← read_members n r; Some ((k, v) :: fs, r')
                | String "}" r => Some ([(k, v)], r)
                | _ => None
                end
            | _ => None
            end
          else None
      | EmptyString => None
      end
  end%char.

(** [JSON.parse(text)]: [None] stands for the SyntaxError it throws. *)
Definition json_parse (text : string) : option JsVal :=
  match read_value (2 * String.length text + 2) text with
  | Some (v, rest) =>
      match skip_ws rest with
      | EmptyString => Some v
      | _ => None
      end
  | None => None
  end.

End Json.

(** ** The data of the API *)

(** An element of the request's [words] array: [{ word, meaning, synonyms }]
    with string fields, [synonyms] optional. *)
Module NewWord.
Record t : Type := { word : string; meaning : string; synonyms : option (list string) }.
End NewWord.

(** A row of the [vocabulary] table as the bulk route writes it and as the
    store returns it.  [group_name] and [sentence] come out of the parsed
    reply of the model, so they are JavaScript values. *)
Module Entry.
Record t : Type := {
  word : string;
  meaning : string;
  synonyms : list string;
  group_name : JsVal;
  sentence : JsVal
}.
End Entry.

(** The error object of a Supabase reply (a PostgrestError: [message] is a
    string, [code] may be missing), and the reply [{ data, error }], where
    null is [None]. *)
Module Pg.
Record error : Type := { code : option string; message : string }.
Record reply (A : Type) : Type := { data : option A; err : option error }.
Global Arguments data {A} r.
Global Arguments err {A} r.
Global Arguments Build_reply {A} data err.
End Pg.

(** [results.errors] holds [{ word, error }]. *)
Module WordError.
Record t : Type := { word : string; error : string }.
End WordError.

Record Results : Type := {
  added : list Entry.t;
  skipped : list string;
  errors : list WordError.t
}.

Definition no_results : Results := {| added := []; skipped := []; errors := [] |}.

Definition push_added (r : Results) (row : Entry.t) : Results :=
  {| added := added r ++ [row]; skipped := skipped r; errors := errors r |}.
Definition push_skipped (r : Results) (w : string) : Results :=
  {| added := added r; skipped := skipped r ++ [w]; errors := errors r |}.
Definition push_error (r : Results) (e : WordError.t) : Results :=
  {| added := added r; skipped := skipped r; errors := errors r ++ [e] |}.

(** The body of the 201 response of the enriched bulk route. *)
Record BulkSummary : Type := {
  totalSent : nat;
  addedCount : nat;
  skippedCount : nat;
  errorCount : nat;
  aiProcessingUsed : bool;
  results : Results
}.

Inductive Response : Type :=
| Created (body : BulkSummary)
| BadRequest (error : string)
| ServerError (details : string).

(** What the handlers write to the console. *)
Inductive LogLine : Type :=
| ErrorFetchingGroups (e : Pg.error)
| ExistingGroups (groups : list string)
| AiAssignments (assignments : JsVal)
| ErrorFromAI (msg : string)
| AiProcessingFailed (msg : string).

(** ** The services *)

(** The collaborators of the enriched bulk route, over the world they live
    in: the Gemini model, the [vocabulary] table behind the Supabase client,
    and two primitives of the runtime.  An awaited call may throw. *)
Class Platform (World : Type) : Type := {
  (** [model.generateContent(prompt)], its [response] and [text()] *)
  generateContent : string -> World -> Outcome string * World;
  (** [from('vocabulary').select('group_name').not('group_name', 'is', null)] *)
  select_group_names : World -> Outcome (Pg.reply (list (option string))) * World;
  (** [from('vocabulary').insert([row]).select()] *)
  insert_row : Entry.t -> World -> Outcome (Pg.reply (list Entry.t)) * World;
  (** [JSON.parse(text)]; [None] is its SyntaxError *)
  JSON_parse : string -> option JsVal;
  (** [v > 0] on a value read from a parsed object; the conversion of an
      object to a number may throw *)
  gt_zero : JsVal -> Outcome bool
}.

(** ** The monad of a handler: the world, the console, and exceptions *)

Record State (World : Type) : Type := { world : World; console : list LogLine }.
Arguments world {World} s.
Arguments console {World} s.
Arguments Build_State {World} world console.

Definition Run (World A : Type) : Type := State World -> Outcome A * State World.

Section Monad.
Context {World : Type}.

Definition ret {A} (a : A) : Run World A := fun s => (Returns a, s).

Definition bind {A B} (m : Run World A) (k : A -> Run World B) : Run World B :=
  fun s =>
    match m s with
    | (Returns a, s') => k a s'
    | (Throws msg, s') => (Throws msg, s')
    end.

Definition throw {A} (msg : string) : Run World A := fun s => (Throws msg, s).

(** [try { body } catch (err) { handler }]: effects of [body] before the
    throw stay. *)
Definition try_catch {A} (body : Run World A) (handler : string -> Run World A) : Run World A :=
  fun s =>
    match body s with
    | (Returns a, s') => (Returns a, s')
    | (Throws msg, s') => handler msg s'
    end.

(** A pure JavaScript expression. *)
Definition eval {A} (o : Outcome A) : Run World A := fun s => (o, s).

(** An awaited call of a service. *)
Definition await {A} (call : World -> Outcome A * World) : Run World A :=
  fun s =>
    let '(o, w) := call (world s) in
    (o, {| world := w; console := console s |}).

Definition logged (l : LogLine) (s : State World) : State World :=
  {| world := world s; console := console s ++ [l] |}.

(** The state [s] with the lines [c] written before its own. *)
Definition prepend (c : list LogLine) (s : State World) : State World :=
  {| world := world s; console := c ++ console s |}.

(** A computation is framed when lines already on the console change
    neither its result nor its world, and stay in front of what it writes. *)
Definition framed {A} (m : Run World A) : Prop :=
  forall c s, m (prepend c s) = (fst (m s), prepend c (snd (m s))).

(** [console.log] and [console.error] *)
Definition console_write (l : LogLine) : Run World unit :=
  fun s => (Returns tt, logged l s).

End Monad.

Notation "x <- m ;; k" := (bind m (fun x => k))
  (at level 100, m at next level, right associativity, only parsing).
Notation "m ;;; k" := (bind m (fun _ => k))
  (at level 100, right associativity, only parsing).

(** ** The enriched bulk route *)

Section Bulk.
Context {World : Type} `{!Platform World}.

(** The prompt of [getGroupNamesAndSentences], a template literal. *)
Definition prompt (newWords : list NewWord.t) (existingGroups : list string) : string :=
  lines [
    "You are a vocabulary assistant. Your task is to:";
    "1. Assign group names to words based on their meanings";
    "2. Create example sentences showing proper usage of each word";
    "";
    "Existing groups in database:";
    (if (0 <? length existingGroups)%nat
     then lines (map (fun g => "- " +:+ quoted g) existingGroups)
     else "No existing groups yet");
    "";
    "New words to categorize:";
    lines (map (fun w => "Word: " +:+ quoted (NewWord.word w) +:+
                         " - Meaning: " +:+ quoted (NewWord.meaning w)) newWords);
    "";
    "Rules for grouping:";
    "1. If a word's meaning matches an existing group, assign it to that group";
    "2. If no existing group matches, create a NEW simple group name (2-4 words max)";
    "3. Group names should be simple like " +:+ quoted "feeling happy" +:+ ", " +:+
      quoted "movement verbs" +:+ ", " +:+ quoted "time related" +:+ ", etc.";
    "4. Multiple words with similar meanings should get the SAME group name";
    "";
    "Rules for sentences:";
    "1. Create ONE clear, natural sentence for each word";
    "2. The sentence should demonstrate the word's meaning in context";
    "3. Keep sentences simple and easy to understand (10-20 words)";
    "4. Use the exact word provided (match the case)";
    "";
    "Return ONLY a valid JSON array with this exact structure:";
    "[";
    "  {";
    "    " +:+ quoted "word" +:+ ": " +:+ quoted "word1" +:+ ",";
    "    " +:+ quoted "group_name" +:+ ": " +:+ quoted "simple group name" +:+ ",";
    "    " +:+ quoted "sentence" +:+ ": " +:+
      quoted "A clear example sentence using word1 in context.";
    "  },";
    "  {";
    "    " +:+ quoted "word" +:+ ": " +:+ quoted "word2" +:+ ", ";
    "    " +:+ quoted "group_name" +:+ ": " +:+ quoted "simple group name" +:+ ",";
    "    " +:+ quoted "sentence" +:+ ": " +:+
      quoted "A clear example sentence using word2 in context.";
    "  }";
    "]";
    "";
    "Return ONLY the JSON array, no other text."
  ].

(** [responseText.replace(/```json\n?/g, '').replace(/```\n?/g, '').trim()] *)
Definition cleanedText (responseText : string) : string :=
  trim (remove_all "```" (remove_all "```json" responseText 0 false) 0 false).

(** The value of the [catch] branch: every requested word, without group
    and sentence. *)
Definition fallback (newWords : list NewWord.t) : JsVal :=
  JArr (map (fun w => JObj [("word", JStr (NewWord.word w));
                            ("group_name", JNull);
                            ("sentence", JNull)]) newWords).

Definition syntax_error : string := "SyntaxError: the text is not valid JSON".

Definition getGroupNamesAndSentences
    (newWords : list NewWord.t) (existingGroups : list string) : Run World JsVal :=
  try_catch
    (responseText <- await (generateContent (prompt newWords existingGroups)) ;;
     assignments <- eval (match JSON_parse (cleanedText responseText) with
                          | Some v => Returns v
                          | None => Throws syntax_error
                          end) ;;
     ret assignments)
    (fun error =>
       console_write (ErrorFromAI error) ;;;
       ret (fallback newWords)).

(** [[...new Set(xs)]]: the first occurrence of each value, in order. *)
Fixpoint unique (seen xs : list string) : list string :=
  match xs with
  | [] => []
  | x :: rest =>
      if bool_decide (x ∈ seen) then unique seen rest
      else x :: unique (x :: seen) rest
  end.

(** [existingGroupsData.map(item => item.group_name).filter(Boolean)]: null
    and the empty string are falsy. *)
Definition truthy_names (rows : list (option string)) : list string :=
  omap (fun g => match g with
                 | Some EmptyString | None => None
                 | Some s => Some s
                 end) rows.

Definition existingGroups_of (existingGroupsData : option (list (option string))) : list string :=
  match existingGroupsData with
  | Some rows => unique [] (truthy_names rows)
  | None => []
  end.

(** [items.find(a => a.word === w)]; [None] is [undefined].  The callback
    throws on a null element. *)
Fixpoint find_by_word (items : list JsVal) (w : string) : Outcome (option JsVal) :=
  match items with
  | [] => Returns None
  | a :: rest =>
      match get_prop a "word" with
      | Throws msg => Throws msg
      | Returns v =>
          if strict_eq_string v w then Returns (Some a) else find_by_word rest w
      end
  end.

(** [assignments.find(...)] on whatever the parse returned: only an array
    has the method. *)
Definition assignments_find (assignments : JsVal) (w : string) : Outcome (option JsVal) :=
  match assignments with
  | JArr items => find_by_word items w
  | JNull => Throws "Cannot read properties of null (reading 'find')"
  | JUndefined => Throws "Cannot read properties of undefined (reading 'find')"
  | _ => Throws "assignments.find is not a function"
  end.

(** [assignment ? assignment.k : null].  A found element has a string under
    [word], so it is an object, and an object is truthy. *)
Definition assigned (assignment : option JsVal) (k : string) : Outcome JsVal :=
  match assignment with
  | Some a => get_prop a k
  | None => Returns JNull
  end.

Definition is_duplicate (error : Pg.error) : bool :=
  bool_decide (Pg.code error = Some "23505") || includes (Pg.message error) "duplicate".

(** The row the loop inserts for [word]. *)
Definition row_of (word : NewWord.t) (groupName sentence : JsVal) : Entry.t :=
  {| Entry.word := NewWord.word word;
     Entry.meaning := NewWord.meaning word;
     Entry.synonyms := default [] (NewWord.synonyms word);
     Entry.group_name := groupName;
     Entry.sentence := sentence |}.

(** [{ word: word.word, error: msg }] *)
Definition error_for (word : NewWord.t) (msg : string) : WordError.t :=
  {| WordError.word := NewWord.word word; WordError.error := msg |}.

(** How the loop files the reply of an insertion. *)
Definition classify (results : Results) (word : NewWord.t)
    (reply : Pg.reply (list Entry.t)) : Results :=
  match Pg.err reply with
  | Some error =>
      if is_duplicate error
      then push_skipped results (NewWord.word word)
      else push_error results (error_for word (Pg.message error))
  | None =>
      match Pg.data reply with
      | Some (row :: _) => push_added results row
      | _ => results
      end
  end.

(** The body of [for (const word of words)]. *)
Definition process_word (assignments : JsVal) (results : Results) (word : NewWord.t)
    : Run World Results :=
  try_catch
    (assignment <- eval (assignments_find assignments (NewWord.word word)) ;;
     groupName <- eval (assigned assignment "group_name") ;;
     sentence <- eval (assigned assignment "sentence") ;;
     reply <- await (insert_row (row_of word groupName sentence)) ;;
     ret (classify results word reply))
    (fun err => ret (push_error results (error_for word err))).

Fixpoint for_each_word (assignments : JsVal) (results : Results) (words : list NewWord.t)
    : Run World Results :=
  match words with
  | [] => ret results
  | word :: rest =>
      results' <- process_word assignments results word ;;
      for_each_word assignments results' rest
  end.

(** [assignments.length > 0] *)
Definition length_gt_0 (assignments : JsVal) : Outcome bool :=
  match assignments with
  | JArr items => Returns (0 <? length items)%nat
  | JStr s => Returns (0 <? String.length s)%nat
  | JNull => Throws "Cannot read properties of null (reading 'length')"
  | JUndefined => Throws "Cannot read properties of undefined (reading 'length')"
  | JObj fields =>
      match obj_get fields "length" with
      | Some v => gt_zero v
      | None => Returns false
      end
  | JBool _ | JNum _ => Returns false
  end.

(** The body of [res.status(201).json({ ... })]. *)
Definition summary (words : list NewWord.t) (used : bool) (results : Results) : BulkSummary :=
  {| totalSent := length words;
     addedCount := length (added results);
     skippedCount := length (skipped results);
     errorCount := length (errors results);
     aiProcessingUsed := used;
     results := results |}.

(** Steps 2 and 3 of the handler and its response, from the labels read. *)
Definition bulk_with_groups (words : list NewWord.t) (existingGroups : list string)
    : Run World Response :=
  console_write (ExistingGroups existingGroups) ;;;
  assignments <-
    try_catch
      (a <- getGroupNamesAndSentences words existingGroups ;;
       console_write (AiAssignments a) ;;;
       ret a)
      (fun aiError =>
         console_write (AiProcessingFailed aiError) ;;;
         ret (JArr [])) ;;
  results <- for_each_word assignments no_results words ;;
  used <- eval (length_gt_0 assignments) ;;
  ret (Created (summary words used results)).

(** POST /api/vocabulary/bulk.  [words] is [None] when [req.body.words] is
    not an array. *)
Definition bulk (words : option (list NewWord.t)) : Run World Response :=
  try_catch
    match words with
    | None | Some [] => ret (BadRequest "Invalid input. Expected words array.")
    | Some words =>
        reply <- await select_group_names ;;
        match Pg.err reply with
        | Some groupError => console_write (ErrorFetchingGroups groupError)
        | None => ret tt
        end ;;;
        bulk_with_groups words (existingGroups_of (Pg.data reply))
    end
    (fun err => ret (ServerError err)).

(** *** The handler, step by step *)

(** How the response comes out of the assignments and of the lists. *)
Definition respond (words : list NewWord.t) (assignments : JsVal) (results : Results) : Outcome Response :=
  match length_gt_0 assignments with
  | Returns used => Returns (Created (summary words used results))
  | Throws msg => Throws msg
  end.

(** The state in which steps 2 and 3 start. *)
Definition after_read (reply : Pg.reply (list (option string))) (w : World) (s : State World) : State World :=
  match Pg.err reply with
  | Some groupError =>
      logged (ErrorFetchingGroups groupError) {| world := w; console := console s |}
  | None => {| world := w; console := console s |}
  end.

(** What the outer [try] makes of steps 2 and 3. *)
Definition settle (r : Outcome Response * State World) : Outcome Response * State World :=
  match r with
  | (Returns response, s') => (Returns response, s')
  | (Throws msg, s') => (Returns (ServerError msg), s')
  end.

(** *** What an iteration does, read off the loop body *)

(** The row an iteration hands to the store, or the error thrown before
    the insertion is reached. *)
Definition payload (assignments : JsVal) (word : NewWord.t) : Outcome Entry.t :=
  match assignments_find assignments (NewWord.word word) with
  | Throws msg => Throws msg
  | Returns assignment =>
      match assigned assignment "group_name" with
      | Throws msg => Throws msg
      | Returns groupName =>
          match assigned assignment "sentence" with
          | Throws msg => Throws msg
          | Returns sentence => Returns (row_of word groupName sentence)
          end
      end
  end.

(** A reply without error and without a row: [else if (data &&
    data.length > 0)] is false, and no branch files the word. *)
Definition silent (reply : Pg.reply (list Entry.t)) : bool :=
  match Pg.err reply, Pg.data reply with
  | None, None | None, Some [] => true
  | _, _ => false
  end.

(** The iteration for [word] started in [s] gets a silent reply. *)
Definition silent_at (assignments : JsVal) (word : NewWord.t) (s : State World) : bool :=
  match payload assignments word with
  | Returns row =>
      match fst (insert_row row (world s)) with
      | Returns reply => silent reply
      | Throws _ => false
      end
  | Throws _ => false
  end.

(** The number of silent replies in the run of the loop from [s]. *)
Fixpoint silent_inserts (assignments : JsVal) (words : list NewWord.t) (s : State World) : nat :=
  match words with
  | [] => 0
  | word :: rest =>
      ((if silent_at assignments word s then 1 else 0) +
       silent_inserts assignments rest (snd (process_word assignments no_results word s)))%nat
  end.

(** The store never gives a silent reply. *)
Definition never_silent : Prop :=
  forall row w reply w', insert_row row w = (Returns reply, w') -> silent reply = false.

(** How many words the three lists hold. *)
Definition filed (r : Results) : nat :=
  (length (added r) + length (skipped r) + length (errors r))%nat.

(** The words of the entries of [errors]. *)
Definition error_words (r : Results) : list string := map WordError.word (errors r).

(** [find] throws for none of the words: the assignments are an array with
    no null element before the match of a word. *)
Definition searchable (assignments : JsVal) (words : list NewWord.t) : bool :=
  forallb (fun word => match payload assignments word with
                       | Returns _ => true
                       | Throws _ => false
                       end) words.


End Bulk.

(** ** The groups view *)

(** A row as GET /api/vocabulary/groups selects it: the columns are text,
    [group_name] and [sentence] may be null. *)
Module StoredRow.
Record t : Type := {
  word : string;
  meaning : string;
  synonyms : list string;
  group_name : option string;
  sentence : option string
}.
End StoredRow.

(** An element of a group in the response. *)
Module GroupItem.
Record t : Type := {
  word : string;
  meaning : string;
  synonyms : list string;
  sentence : option string
}.
End GroupItem.

Inductive GroupsResponse : Type :=
| GroupsOk (groups : gmap string (list GroupItem.t))
| GroupsBadRequest (error : string)
| GroupsServerError (details : string).

(** [select('word, meaning, synonyms, group_name, sentence')
     .not('group_name', 'is', null).order('group_name', { ascending: true })] *)
Class GroupsStore (World : Type) : Type := {
  select_grouped : World -> Outcome (Pg.reply (list StoredRow.t)) * World
}.

Section Groups.
Context {World : Type} `{!GroupsStore World}.

(** The names every object literal inherits from [Object.prototype]:
    [groups[k]] is a function (an object for [__proto__]) for each of them
    before anything is stored under [k]. *)
Definition inherited_names : list string := [
  "constructor"; "__proto__"; "hasOwnProperty"; "isPrototypeOf";
  "propertyIsEnumerable"; "toLocaleString"; "toString"; "valueOf";
  "__defineGetter__"; "__defineSetter__"; "__lookupGetter__"; "__lookupSetter__"
].

Definition inherited (k : string) : bool := bool_decide (k ∈ inherited_names).

(** The property key [word.group_name] names. *)
Definition key_of (group_name : option string) : string := default "null" group_name.

Definition item_of (row : StoredRow.t) : GroupItem.t :=
  {| GroupItem.word := StoredRow.word row;
     GroupItem.meaning := StoredRow.meaning row;
     GroupItem.synonyms := StoredRow.synonyms row;
     GroupItem.sentence := StoredRow.sentence row |}.

(** The callback of [data.forEach]; [groups] holds the own properties of
    the object.  An own property is an array, which is truthy; an inherited
    one is truthy too, and has no [push]. *)
Definition group_step (groups : gmap string (list GroupItem.t)) (row : StoredRow.t)
    : Outcome (gmap string (list GroupItem.t)) :=
  let k := key_of (StoredRow.group_name row) in
  match groups !! k with
  | Some items => Returns (<[k := items ++ [item_of row]]> groups)
  | None =>
      if inherited k
      then Throws "groups[word.group_name].push is not a function"
      else Returns (<[k := [item_of row]]> groups)
  end.

Fixpoint forEach_group (groups : gmap string (list GroupItem.t)) (data : list StoredRow.t)
    : Outcome (gmap string (list GroupItem.t)) :=
  match data with
  | [] => Returns groups
  | row :: rest =>
      match group_step groups row with
      | Returns groups' => forEach_group groups' rest
      | Throws msg => Throws msg
      end
  end.

(** The elements the rows of [data] put under the key [k], in order. *)
Definition bucket (k : string) (data : list StoredRow.t) : list GroupItem.t :=
  map item_of (filter (fun row => key_of (StoredRow.group_name row) = k) data).

(** The property of [groups] that holds [items] when there are any. *)
Definition property (items : list GroupItem.t) : option (list GroupItem.t) :=
  match items with
  | [] => None
  | _ => Some items
  end.

(** What [groups] holds under [k] after the rows of [data] went in. *)
Definition filled (before : option (list GroupItem.t)) (items : list GroupItem.t)
    : option (list GroupItem.t) :=
  match before with
  | Some old => Some (old ++ items)
  | None => property items
  end.

(** How many elements the response holds, over all its groups. *)
Definition group_sizes (groups : gmap string (list GroupItem.t)) : nat :=
  map_fold (fun _ items n => (length items + n)%nat) 0%nat groups.

(** No row of [data] is named like an inherited property. *)
Definition plain_names (data : list StoredRow.t) : Prop :=
  Forall (fun row => inherited (key_of (StoredRow.group_name row)) = false) data.

(** GET /api/vocabulary/groups *)
Definition groups_view : Run World GroupsResponse :=
  try_catch
    (reply <- await select_grouped ;;
     match Pg.err reply with
     | Some error => ret (GroupsBadRequest (Pg.message error))
     | None =>
         groups <- eval (match Pg.data reply with
                         | Some data => forEach_group ∅ data
                         | None => Throws "Cannot read properties of null (reading 'forEach')"
                         end) ;;
         ret (GroupsOk groups)
     end)
    (fun err => ret (GroupsServerError err)).

End Groups.

(** ** The chunked bulk route of server.js *)

Module ServerJs.

(** The body of its 201 response. *)
Record ChunkSummary (Row : Type) : Type := {
  batchSize : nat;
  totalProcessed : Z;
  totalWords : nat;
  hasMore : bool;
  nextOffset : option Z;
  data : list Row
}.
Global Arguments batchSize {Row} c.
Global Arguments totalProcessed {Row} c.
Global Arguments totalWords {Row} c.
Global Arguments hasMore {Row} c.
Global Arguments nextOffset {Row} c.
Global Arguments data {Row} c.

Inductive ChunkResponse (Row : Type) : Type :=
| BatchAdded (body : ChunkSummary Row)
| NoMoreWords (totalProcessed : Z)
| ChunkBadRequest (error : string)
| ChunkServerError (details : string).
Global Arguments BatchAdded {Row} body.
Global Arguments NoMoreWords {Row} totalProcessed.
Global Arguments ChunkBadRequest {Row} error.
Global Arguments ChunkServerError {Row} details.

(** [from('vocabulary').insert(batch).select()], for words of type [Word]
    and returned rows of type [Row]. *)
Class BatchStore (World Word Row : Type) : Type := {
  insert_batch : list Word -> World -> Outcome (Pg.reply (list Row)) * World
}.

(** [xs.slice(start, end)] for integers: a negative index counts from the
    end. *)
Definition slice {A} (xs : list A) (start end_ : Z) : list A :=
  let len := Z.of_nat (length xs) in
  let k := if start <? 0 then Z.max (len + start) 0 else Z.min start len in
  let final := if end_ <? 0 then Z.max (len + end_) 0 else Z.min end_ len in
  take (Z.to_nat (final - k)) (drop (Z.to_nat k) xs).

Section Chunked.
Context {World Word Row : Type} `{!BatchStore World Word Row}.

(** [words.slice(offset, offset + 50)] *)
Definition batch_of (words : list Word) (offset : Z) : list Word :=
  slice words offset (offset + 50).

(** POST /api/vocabulary/bulk of server.js.  [words] is [None] when the
    body holds no array, [offset] when the body has none. *)
Definition bulk_chunk (words : option (list Word)) (offset : option Z)
    : Run World (ChunkResponse Row) :=
  try_catch
    match words with
    | None | Some [] => ret (ChunkBadRequest "Invalid input. Expected words array.")
    | Some words =>
        let offset := default 0 offset in
        let batch := batch_of words offset in
        if bool_decide (length batch = 0%nat) then ret (NoMoreWords offset)
        else
          reply <- await (insert_batch batch) ;;
          match Pg.err reply with
          | Some error => ret (ChunkBadRequest (Pg.message error))
          | None =>
              data <- eval (match Pg.data reply with
                            | Some rows => Returns rows
                            | None => Throws "Cannot read properties of null (reading 'length')"
                            end) ;;
              let newOffset := offset + Z.of_nat (length batch) in
              let hasMore := newOffset <? Z.of_nat (length words) in
              ret (BatchAdded {| batchSize := length data;
                                 totalProcessed := newOffset;
                                 totalWords := length words;
                                 hasMore := hasMore;
                                 nextOffset := if hasMore then Some newOffset else None;
                                 data := data |})
          end
    end
    (fun err => ret (ChunkServerError err)).

End Chunked.

End ServerJs.

(** ** The listing route *)

(** The numbers of the listing route are doubles.  An integer of absolute
    value up to [MAX_SAFE_INTEGER] is a double, and a sum, a difference, a
    product or a comparison of such integers is exact as long as its result
    is one too; so is [Math.ceil] of a quotient of two of them.  [Z] stands
    for these doubles: what is stated about the route is stated for numbers
    that are [safe]. *)
Module Number.

Definition MAX_SAFE_INTEGER : Z := 2 ^ 53 - 1.

Definition safe (z : Z) : Prop := - MAX_SAFE_INTEGER <= z <= MAX_SAFE_INTEGER.

(** A value of [req.query]: no parameter of that name, a text, several
    values under one name, or a nested object. *)
Inductive query : Type :=
| Missing
| Text (s : string)
| Several (items : list query)
| Nested.

(** [String(v)], which [parseInt] reads: the elements of an array joined by
    commas, an undefined element as the empty text. *)
Fixpoint to_string (v : query) : string :=
  match v with
  | Missing => "undefined"
  | Text s => s
  | Several items =>
      join "," (map (fun item => match item with
                                 | Missing => EmptyString
                                 | _ => to_string item
                                 end) items)
  | Nested => "[object Object]"
  end.

(** The value of a digit in a radix, if it is one. *)
Definition digit (radix : Z) (c : ascii) : option Z :=
  let n := Z.of_nat (nat_of_ascii c) in
  let v := if (48 <=? n) && (n <=? 57) then Some (n - 48)
           else if (97 <=? n) && (n <=? 122) then Some (n - 87)
           else if (65 <=? n) && (n <=? 90) then Some (n - 55)
           else None in
  match v with
  | Some d => if d <? radix then Some d else None
  | None => None
  end.

(** The digits at the start of [s], read in [radix]; [acc] is the value
    read so far, [None] when no digit was read. *)
Fixpoint digits (radix : Z) (acc : option Z) (s : string) : option Z :=
  match s with
  | String c s' =>
      match digit radix c with
      | Some d => digits radix (Some (radix * default 0 acc + d)) s'
      | None => acc
      end
  | EmptyString => acc
  end.

(** [parseInt(v)] without a radix; [None] is NaN. *)
Definition parseInt (v : query) : option Z :=
  let s := trim_start (to_string v) in
  let '(sign, s) :=
    match s with
    | String "-" r => (-1, r)
    | String "+" r => (1, r)
    | _ => (1, s)
    end%char in
  let '(radix, s) :=
    match s with
    | String "0" (String x r) =>
        if Ascii.eqb x "x" || Ascii.eqb x "X" then (16, r) else (10, s)
    | _ => (10, s)
    end%char in
  match digits radix None s with
  | Some n => Some (sign * n)
  | None => None
  end.

(** [n || d]: NaN and 0 are falsy. *)
Definition or_default (n : option Z) (d : Z) : Z :=
  match n with
  | Some z => if z =? 0 then d else z
  | None => d
  end.

(** [Math.ceil(a / b)] for [b] other than 0. *)
Definition ceil_div (a b : Z) : Z := - ((- a) / b).

End Number.

Module Page.

(** The reply of the count query, [{ count, error }]. *)
Record count_reply : Type := { count : option Z; err : option Pg.error }.

(** [pagination] of the response. *)
Record pagination : Type := {
  page : Z;
  limit : Z;
  total : option Z;
  totalPages : Z;
  hasMore : bool
}.

Inductive response : Type :=
| Ok (data : option (list StoredRow.t)) (p : pagination)
| BadRequest (error : string)
| ServerError (details : string).

(** [select('*', { count: 'exact', head: true })], and
    [select(...).order('id', { ascending: true }).range(from, to)]. *)
Class ListStore (World : Type) : Type := {
  select_count : World -> Outcome count_reply * World;
  select_range : Z -> Z -> World -> Outcome (Pg.reply (list StoredRow.t)) * World
}.

Section Listing.
Context {World : Type} `{!ListStore World}.

(** GET /api/vocabulary with [req.query.page] and [req.query.limit];
    [default_limit] is 50 in the route with sentences and 30 in the route
    without. *)
Definition get_vocabulary (default_limit : Z) (query_page query_limit : Number.query)
    : Run World response :=
  try_catch
    (let page := Number.or_default (Number.parseInt query_page) 1 in
     let limit := Number.or_default (Number.parseInt query_limit) default_limit in
     let offset := (page - 1) * limit in
     counted <- await select_count ;;
     match err counted with
     | Some countError => ret (BadRequest (Pg.message countError))
     | None =>
         reply <- await (select_range offset (offset + limit - 1)) ;;
         match Pg.err reply with
         | Some error => ret (BadRequest (Pg.message error))
         | None =>
             ret (Ok (Pg.data reply)
                     {| page := page;
                        limit := limit;
                        total := count counted;
                        totalPages := Number.ceil_div (default 0 (count counted)) limit;
                        hasMore := offset + limit <? default 0 (count counted) |})
         end
     end)
    (fun err => ret (ServerError err)).

End Listing.

End Page.

(** ** The delete route *)

Module Delete.

Inductive response : Type :=
| Deleted (deleted : Entry.t)
| NotFound
| BadRequest (error : string)
| ServerError (details : string).

(** [from('vocabulary').delete().eq('word', word).select()] *)
Class DeleteStore (World : Type) : Type := {
  delete_by_word : string -> World -> Outcome (Pg.reply (list Entry.t)) * World
}.

Section Route.
Context {World : Type} `{!DeleteStore World}.

(** DELETE /api/vocabulary/:word *)
Definition delete_word (word : string) : Run World response :=
  try_catch
    (reply <- await (delete_by_word word) ;;
     match Pg.err reply with
     | Some error => ret (BadRequest (Pg.message error))
     | None =>
         data <- eval (match Pg.data reply with
                       | Some rows => Returns rows
                       | None => Throws "Cannot read properties of null (reading 'length')"
                       end) ;;
         match data with
         | [] => ret NotFound
         | row :: _ => ret (Deleted row)
         end
     end)
    (fun err => ret (ServerError err)).

End Route.

End Delete.

(** ** Worlds to run the handlers in *)

(** The runtime of the concrete worlds: the reference reader, and [v > 0]
    on a parsed value.  A boolean is 0 or 1, null is 0, a number is the
    double of its literal, a text is read as a numeric literal (white space
    around it dropped), an array is the text of its elements joined by
    commas, and an object is the text [object Object], which is no number;
    an object with a property of its own named toString has no text, and
    reading it throws. *)
Module RefRuntime.

(** The number of a text of decimal digits. *)
Fixpoint decimal (acc : Z) (s : string) : Z :=
  match s with
  | EmptyString => acc
  | String c s' => decimal (10 * acc + (Z.of_nat (nat_of_ascii c) - 48)) s'
  end.

(** The double nearest to [m * 10 ^ k], for [m] at least 0, is above zero:
    [m] is, and the product is above [2 ^ -1075], half the least double
    above zero. *)
Definition rounds_above_zero (m k : Z) : bool :=
  (0 <? m) && ((0 <=? k) || (10 ^ (- k) <? m * 2 ^ 1075)).

(** The exponent after the mantissa: nothing, or [e] or [E], a sign if any
    and digits to the end of the text. *)
Definition exponent (s : string) : option Z :=
  match s with
  | EmptyString => Some 0
  | String x r =>
      if Ascii.eqb x "e" || Ascii.eqb x "E" then
        let '(sign, ds) :=
          match r with
          | String "-" d => (-1, d)
          | String "+" d => (1, d)
          | _ => (1, r)
          end%char in
        match Json.read_digits ds with
        | (String c cs, EmptyString) => Some (sign * decimal 0 (String c cs))
        | _ => None
        end
      else None
  end%char.

(** An unsigned decimal literal (digits, a point, digits, an exponent; digits
    on one side of the point at least) is above zero. *)
Definition decimal_gt_zero (s : string) : bool :=
  let '(int, r1) := Json.read_digits s in
  let '(frac, r2) :=
    match r1 with
    | String "." r => Json.read_digits r
    | _ => (EmptyString, r1)
    end%char in
  match int +:+ frac, exponent r2 with
  | String c cs, Some e =>
      rounds_above_zero (decimal 0 (String c cs)) (e - Z.of_nat (String.length frac))
  | _, _ => false
  end.

(** The digits of a literal with a radix prefix: all of the radix, one at
    least, and one that is not 0. *)
Fixpoint radix_digits (radix : N) (s : string) : option bool :=
  match s with
  | EmptyString => Some false
  | String c s' =>
      match Json.hex_digit c, radix_digits radix s' with
      | Some d, Some nonzero => if (d <? radix)%N then Some (negb (d =? 0)%N || nonzero) else None
      | _, _ => None
      end
  end.

Definition radix_gt_zero (radix : N) (s : string) : bool :=
  match s with
  | EmptyString => false
  | _ => default false (radix_digits radix s)
  end.

(** [Number(s) > 0] for a text. *)
Definition string_gt_zero (s : string) : bool :=
  let unsigned t := if String.eqb t "Infinity" then true else decimal_gt_zero t in
  match trim s with
  | String "0" (String x r) as t =>
      if Ascii.eqb x "x" || Ascii.eqb x "X" then radix_gt_zero 16 r
      else if Ascii.eqb x "o" || Ascii.eqb x "O" then radix_gt_zero 8 r
      else if Ascii.eqb x "b" || Ascii.eqb x "B" then radix_gt_zero 2 r
      else unsigned t
  | String "-" _ => false
  | String "+" r => unsigned r
  | t => unsigned t
  end%char.

(** [lit > 0] for the literal of a JSON number. *)
Definition literal_gt_zero (lit : string) : bool :=
  match lit with
  | String "-" _ => false
  | _ => decimal_gt_zero lit
  end%char.

(** The value has a text: no object with a toString of its own is in it or
    in an array of it. *)
Fixpoint has_text (v : JsVal) : bool :=
  match v with
  | JArr items => forallb has_text items
  | JObj fields => match obj_get fields "toString" with Some _ => false | None => true end
  | _ => true
  end.

(** [Number(v) > 0] for a value that has a text.  An array of one element
    is that element's text, where the text of a boolean is no number and
    the text of null is empty. *)
Fixpoint positive (v : JsVal) : bool :=
  match v with
  | JBool b => b
  | JNum lit => literal_gt_zero lit
  | JStr s => string_gt_zero s
  | JArr [x] =>
      match x with
      | JBool _ => false
      | _ => positive x
      end
  | _ => false
  end.

Definition gt_zero (v : JsVal) : Outcome bool :=
  if has_text v then Returns (positive v)
  else Throws "Cannot convert object to primitive value".

End RefRuntime.

(** A world that plays a script: each call of the model and each insertion
    takes the next scripted outcome, and the rows handed to the store are
    recorded.  Any finite behaviour of the services is such a script. *)
Module Scripted.

Record t : Type := {
  model : list (Outcome string);
  labels : Outcome (Pg.reply (list (option string)));
  inserts : list (Outcome (Pg.reply (list Entry.t)));
  written : list Entry.t
}.

Definition generate (_ : string) (w : t) : Outcome string * t :=
  match model w with
  | [] => (Throws "model unavailable", w)
  | o :: rest =>
      (o, {| model := rest; labels := labels w; inserts := inserts w; written := written w |})
  end.

Definition insert (row : Entry.t) (w : t) : Outcome (Pg.reply (list Entry.t)) * t :=
  match inserts w with
  | [] => (Throws "store unavailable",
           {| model := model w; labels := labels w; inserts := [];
              written := written w ++ [row] |})
  | o :: rest =>
      (o, {| model := model w; labels := labels w; inserts := rest;
             written := written w ++ [row] |})
  end.

#[global] Instance platform : Platform t := {|
  generateContent := generate;
  select_group_names := fun w => (labels w, w);
  insert_row := insert;
  JSON_parse := Json.json_parse;
  gt_zero := RefRuntime.gt_zero
|}.

Definition start (w : t) : State t := {| world := w; console := [] |}.

End Scripted.

(** Modelled from the spec: the store behind the Supabase client (the
    Duplicate-Aware Store Gateway of the design), which is a hosted database
    and no code of this repository.  The [word] column is unique: inserting a
    word that is present is refused with the unique-violation signal, any
    other insertion persists the entry as given and returns it.  The model is
    scripted as above. *)
Module Mem.

Record t : Type := {
  table : list Entry.t;
  model : list (Outcome string)
}.

Definition unique_violation : Pg.error :=
  {| Pg.code := Some "23505";
     Pg.message := "duplicate key value violates unique constraint" |}.

Definition present (w : string) (t : list Entry.t) : bool :=
  bool_decide (w ∈ map Entry.word t).

Definition generate (_ : string) (w : t) : Outcome string * t :=
  match model w with
  | [] => (Throws "model unavailable", w)
  | o :: rest => (o, {| table := table w; model := rest |})
  end.

Definition insert (row : Entry.t) (w : t) : Outcome (Pg.reply (list Entry.t)) * t :=
  if present (Entry.word row) (table w)
  then (Returns {| Pg.data := None; Pg.err := Some unique_violation |}, w)
  else (Returns {| Pg.data := Some [row]; Pg.err := None |},
        {| table := table w ++ [row]; model := model w |}).

Definition label_of (e : Entry.t) : option (option string) :=
  match Entry.group_name e with
  | JStr s => Some (Some s)
  | _ => None
  end.

Definition select_labels (w : t) : Outcome (Pg.reply (list (option string))) * t :=
  (Returns {| Pg.data := Some (omap label_of (table w)); Pg.err := None |}, w).

(** The store and the scripted model under a runtime: [parse] is its
    [JSON.parse], [gt] its [v > 0]. *)
Definition with_runtime (parse : string -> option JsVal) (gt : JsVal -> Outcome bool)
    : Platform t := {|
  generateContent := generate;
  select_group_names := select_labels;
  insert_row := insert;
  JSON_parse := parse;
  gt_zero := gt
|}.

(** The examples run the reference reader. *)
#[global] Instance platform : Platform t := with_runtime Json.json_parse RefRuntime.gt_zero.

Definition start (w : t) : State t := {| world := w; console := [] |}.

(** A scripted outcome of the model after which [find] throws for no word
    of the batch, under the [JSON.parse] of the runtime: a failed call, a
    text that [parse] refuses, or a text that it parses to an array with no
    null element before the match of a word. *)
Definition usable (parse : string -> option JsVal) (words : list NewWord.t)
    (o : Outcome string) : bool :=
  match o with
  | Throws _ => true
  | Returns text =>
      match parse (cleanedText text) with
      | Some v => searchable v words
      | None => true
      end
  end.

End Mem.

(** Modelled from the spec: the query of the groups view on a table that
    answers (the store is no code of this repository): the rows whose
    [group_name] is not null, ordered by it. *)
Module GroupsRef.

Definition has_group (row : StoredRow.t) : bool :=
  bool_decide (is_Some (StoredRow.group_name row)).

Definition name_le (r1 r2 : StoredRow.t) : Prop :=
  String.le (key_of (StoredRow.group_name r1)) (key_of (StoredRow.group_name r2)).

#[global] Instance name_le_dec : RelDecision name_le.
Proof. intros r1 r2. unfold name_le. apply _. Defined.

Definition query (table : list StoredRow.t) : list StoredRow.t :=
  merge_sort name_le (filter (fun row => has_group row = true) table).

#[global] Instance store : GroupsStore (list StoredRow.t) := {|
  select_grouped := fun table =>
    (Returns {| Pg.data := Some (query table); Pg.err := None |}, table)
|}.

End GroupsRef.

(** A store for server.js that accepts every batch and returns its rows. *)
Module AppendStore.

#[global] Instance store (Word : Type) : ServerJs.BatchStore (list Word) Word Word := {|
  ServerJs.insert_batch := fun batch table =>
    (Returns {| Pg.data := Some batch; Pg.err := None |}, table ++ batch)
|}.

End AppendStore.

(** Modelled from the spec: the delete of the store with a unique [word]
    column (the store is no code of this repository): the rows with the word
    leave the table and are returned. *)
Module MemDelete.

Definition delete (word : string) (w : Mem.t) : Outcome (Pg.reply (list Entry.t)) * Mem.t :=
  (Returns {| Pg.data := Some (filter (fun e => Entry.word e = word) (Mem.table w));
              Pg.err := None |},
   {| Mem.table := filter (fun e => Entry.word e <> word) (Mem.table w);
      Mem.model := Mem.model w |}).

#[global] Instance store : Delete.DeleteStore Mem.t := {|
  Delete.delete_by_word := delete
|}.

End MemDelete.

(** Modelled from the spec: the two queries of the listing route on a table
    that answers (the store is no code of this repository), the rows in the
    order of their id: the count is the number of rows, and a range from
    [from] to [to] is the rows at these positions; a range that starts
    before 0 or ends before it starts is refused. *)
Module ListRef.

Definition refusal : Pg.error :=
  {| Pg.code := Some "PGRST103"; Pg.message := "Requested range not satisfiable" |}.

Definition range (from to : Z) (table : list StoredRow.t)
    : Outcome (Pg.reply (list StoredRow.t)) * list StoredRow.t :=
  if (0 <=? from) && (from <=? to + 1)
  then (Returns {| Pg.data := Some (take (Z.to_nat (to - from + 1))
                                         (drop (Z.to_nat from) table));
                   Pg.err := None |}, table)
  else (Returns {| Pg.data := None; Pg.err := Some refusal |}, table).

#[global] Instance store : Page.ListStore (list StoredRow.t) := {|
  Page.select_count := fun table =>
    (Returns {| Page.count := Some (Z.of_nat (length table)); Page.err := None |}, table);
  Page.select_range := range
|}.

End ListRef.

(** Sample data for the examples. *)
Module Samples.

Definition happy : NewWord.t :=
  {| NewWord.word := "elated"; NewWord.meaning := "very happy"; NewWord.synonyms := None |}.
Definition run_ : NewWord.t :=
  {| NewWord.word := "sprint"; NewWord.meaning := "to run fast";
     NewWord.synonyms := Some ["dash"] |}.
Definition late : NewWord.t :=
  {| NewWord.word := "tardy"; NewWord.meaning := "late"; NewWord.synonyms := Some [] |}.

(** The reply of a store that wrote the row. *)
Definition stored (row : Entry.t) : Outcome (Pg.reply (list Entry.t)) :=
  Returns {| Pg.data := Some [row]; Pg.err := None |}.

(** The reply of a store that refused the row. *)
Definition refused (e : Pg.error) : Outcome (Pg.reply (list Entry.t)) :=
  Returns {| Pg.data := None; Pg.err := Some e |}.

(** The reply of a store that reports neither an error nor a row. *)
Definition nothing : Outcome (Pg.reply (list Entry.t)) :=
  Returns {| Pg.data := Some []; Pg.err := None |}.

Definition timeout : Pg.error :=
  {| Pg.code := Some "57014"; Pg.message := "canceling statement due to statement timeout" |}.

(** A failed check whose text happens to speak of duplicates. *)
Definition check_failed : Pg.error :=
  {| Pg.code := Some "23514";
     Pg.message := "new row violates check constraint no_duplicate_letters: duplicate letters" |}.

Definition no_labels : Outcome (Pg.reply (list (option string))) :=
  Returns {| Pg.data := Some []; Pg.err := None |}.

(** A scripted world whose model is down. *)
Definition offline (inserts : list (Outcome (Pg.reply (list Entry.t)))) : State Scripted.t :=
  Scripted.start {| Scripted.model := []; Scripted.labels := no_labels;
                    Scripted.inserts := inserts; Scripted.written := [] |}.

(** A scripted world whose model answers [text]. *)
Definition answering (text : string) (inserts : list (Outcome (Pg.reply (list Entry.t))))
    : State Scripted.t :=
  Scripted.start {| Scripted.model := [Returns text]; Scripted.labels := no_labels;
                    Scripted.inserts := inserts; Scripted.written := [] |}.

(** A reply of the model in a code fence: an array with one assignment. *)
Definition fenced_reply : string :=
  "```json" +:+ String newline
  ("[{" +:+ quoted "word" +:+ ": " +:+ quoted "sprint" +:+ ", " +:+
   quoted "group_name" +:+ ": " +:+ quoted "movement verbs" +:+ ", " +:+
   quoted "sentence" +:+ ": " +:+ quoted "They sprint to the gate." +:+ "}]" +:+
   String newline "```").

(** Assignments as a model may return them: a number, the assignment of
    another word, and two assignments of one word. *)
Definition two_for_sprint : list JsVal :=
  [JNum "7";
   JObj [("word", JStr "elated"); ("group_name", JStr "feeling happy"); ("sentence", JNull)];
   JObj [("word", JStr "sprint"); ("group_name", JStr "movement verbs");
         ("sentence", JStr "They sprint to the gate.")];
   JObj [("word", JStr "sprint"); ("group_name", JStr "speed"); ("sentence", JBool false)]].

Definition builder : StoredRow.t :=
  {| StoredRow.word := "builder"; StoredRow.meaning := "one who builds";
     StoredRow.synonyms := ["maker"]; StoredRow.group_name := Some "constructor";
     StoredRow.sentence := Some "The builder finished the house in spring." |}.

Definition glad : StoredRow.t :=
  {| StoredRow.word := "glad"; StoredRow.meaning := "pleased";
     StoredRow.synonyms := []; StoredRow.group_name := Some "feeling happy";
     StoredRow.sentence := None |}.

Definition merry : StoredRow.t :=
  {| StoredRow.word := "merry"; StoredRow.meaning := "cheerful";
     StoredRow.synonyms := ["jolly"]; StoredRow.group_name := Some "mood";
     StoredRow.sentence := Some "The merry crowd sang until the last train left." |}.

Definition stray : StoredRow.t :=
  {| StoredRow.word := "stray"; StoredRow.meaning := "lost";
     StoredRow.synonyms := []; StoredRow.group_name := None;
     StoredRow.sentence := None |}.

End Samples.

(** * Verification *)

(** ** Strings *)

Lemma prefix_app (p s : string) :
  String.prefix p s = true <-> exists post, s = p +:+ post.
Proof.
  revert s. induction p as [|c p IH]; intros s.
  - split; [intros _; exists s; reflexivity | intros _; destruct s; reflexivity].
  - destruct s as [|c' s]; simpl.
    + split; [discriminate | intros [post H]; discriminate].
    + destruct (ascii_dec c c') as [->|Hne].
      * rewrite IH. split; intros [post H]; exists post.
        -- rewrite H. reflexivity.
        -- injection H as H. exact H.
      * split; [discriminate | intros [post H]; injection H as H1 H2; congruence].
Qed.

(** [includes] is the substring test. *)
Lemma includes_substring (s sub : string) :
  includes s sub = true <-> exists pre post, s = pre +:+ sub +:+ post.
Proof.
  induction s as [|c s IH]; cbn [includes].
  - rewrite orb_false_r, prefix_app. split.
    + intros [post H]. exists EmptyString, post. exact H.
    + intros [pre [post H]]. destruct pre; cbn in H.
      * exists post. exact H.
      * discriminate.
  - rewrite orb_true_iff, prefix_app, IH. split.
    + intros [[post H] | [pre [post H]]].
      * exists EmptyString, post. exact H.
      * exists (String c pre), post. simpl. rewrite H. reflexivity.
    + intros [pre [post H]]. destruct pre as [|c' pre]; simpl in H.
      * left. exists post. exact H.
      * right. injection H as _ H. exists pre, post. exact H.
Qed.

(** ** The merge loop *)

Ltac run := unfold bind, ret, eval, await, try_catch, console_write, throw, logged in *.

Section LoopFacts.
Context {World : Type} `{!Platform World}.

Implicit Types (assignments : JsVal) (word : NewWord.t) (s : State World).

(** One iteration, as a function of the row and of the store's answer. *)
Lemma process_word_eq assignments results word s :
  process_word assignments results word s =
    match payload assignments word with
    | Throws msg => (Returns (push_error results (error_for word msg)), s)
    | Returns row =>
        match insert_row row (world s) with
        | (Returns reply, w) =>
            (Returns (classify results word reply), {| world := w; console := console s |})
        | (Throws msg, w) =>
            (Returns (push_error results (error_for word msg)),
             {| world := w; console := console s |})
        end
    end.
Proof.
  unfold process_word, payload. run.
  destruct (assignments_find assignments (NewWord.word word)) as [msg|assignment];
    [reflexivity|].
  destruct (assigned assignment "group_name") as [msg|groupName]; [reflexivity|].
  destruct (assigned assignment "sentence") as [msg|sentence]; [reflexivity|].
  destruct (insert_row _ (world s)) as [[msg|reply] w]; reflexivity.
Qed.

(** An iteration never throws, and its effect on the world does not depend
    on the lists. *)
Lemma process_word_returns assignments results word s :
  exists results', process_word assignments results word s =
                   (Returns results', snd (process_word assignments no_results word s)).
Proof.
  rewrite !process_word_eq.
  destruct (payload assignments word) as [msg|row]; [eauto|].
  destruct (insert_row row (world s)) as [[msg|reply] w]; eauto.
Qed.

Lemma for_each_word_returns assignments results words s :
  exists results' s', for_each_word assignments results words s = (Returns results', s').
Proof.
  revert results s. induction words as [|word rest IH]; intros results s; simpl.
  - run. eauto.
  - destruct (process_word_returns assignments results word s) as [r1 E].
    unfold bind at 1. rewrite E. apply IH.
Qed.


Lemma filed_classify results word reply :
  (filed (classify results word reply) + (if silent reply then 1 else 0) = S (filed results))%nat.
Proof.
  unfold classify, silent, filed.
  destruct (Pg.err reply) as [e|].
  - destruct (is_duplicate e); simpl; rewrite ?length_app; simpl; lia.
  - destruct (Pg.data reply) as [[|row rows]|]; simpl; rewrite ?length_app; simpl; lia.
Qed.

Lemma filed_push_error results e : filed (push_error results e) = S (filed results).
Proof. unfold filed; simpl. rewrite length_app; simpl. lia. Qed.

(** The accounting of one iteration. *)
Lemma process_word_filed assignments results word s results' s' :
  process_word assignments results word s = (Returns results', s') ->
  (filed results' + (if silent_at assignments word s then 1 else 0) = S (filed results))%nat.
Proof.
  rewrite process_word_eq. unfold silent_at.
  destruct (payload assignments word) as [msg|row].
  - intros [= <- <-]. rewrite filed_push_error. lia.
  - destruct (insert_row row (world s)) as [[msg|reply] w]; simpl; intros [= <- <-].
    + rewrite filed_push_error. lia.
    + apply filed_classify.
Qed.

(** The accounting of the loop: every word is filed once or was answered
    silently. *)
Lemma for_each_word_filed assignments results words s results' s' :
  for_each_word assignments results words s = (Returns results', s') ->
  (filed results' + silent_inserts assignments words s = filed results + length words)%nat.
Proof.
  revert results s. induction words as [|word rest IH]; intros results s; simpl.
  - run. intros [= <- <-]. lia.
  - destruct (process_word_returns assignments results word s) as [r1 E].
    unfold bind at 1. rewrite E. intros Hrest.
    apply IH in Hrest. apply process_word_filed in E. lia.
Qed.



End LoopFacts.

(** ** The claims about one iteration *)

Section IterationClaims.
Context {World : Type} `{!Platform World}.

Implicit Types (assignments : JsVal) (word : NewWord.t) (s : State World).

(** C8. Each iteration of the per-word loop appends to at most one of
    [added], [skipped] and [errors]; when the insertion reports no error
    and returns a null or empty row set, the lists are left as they
    were. *)
Theorem iteration_files_at_most_once assignments results word s :
  exists results' s',
    process_word assignments results word s = (Returns results', s') /\
    (results' = results \/
     (exists row, results' = push_added results row) \/
     results' = push_skipped results (NewWord.word word) \/
     (exists msg, results' = push_error results (error_for word msg))) /\
    (filed results' <= S (filed results))%nat /\
    (forall row reply w,
       payload assignments word = Returns row ->
       insert_row row (world s) = (Returns reply, w) ->
       Pg.err reply = None ->
       Pg.data reply = None \/ Pg.data reply = Some [] ->
       results' = results).
Proof.
  destruct (process_word_returns assignments results word s) as [results' E].
  exists results', (snd (process_word assignments no_results word s)).
  split; [exact E|].
  pose proof (process_word_filed _ _ _ _ _ _ E) as Hfiled.
  revert E. rewrite process_word_eq. generalize (snd (process_word assignments no_results word s)).
  intros s' E. split; [|split; [lia|]].
  - destruct (payload assignments word) as [msg|row].
    + injection E as <- _. eauto 6.
    + destruct (insert_row row (world s)) as [[msg|reply] w]; injection E as <- _.
      * eauto 6.
      * unfold classify. destruct (Pg.err reply) as [e|].
        -- destruct (is_duplicate e); eauto 6.
        -- destruct (Pg.data reply) as [[|row' rows]|]; eauto 6.
  - intros row reply w Hrow Hins Herr Hdata.
    rewrite Hrow, Hins in E. injection E as <- _.
    unfold classify. rewrite Herr. destruct Hdata as [-> | ->]; reflexivity.
Qed.

(** C9. A failed insertion is filed under [skipped] exactly when the
    error's code is 23505 or its message contains the text duplicate;
    so a failure with another code whose message contains that text is
    skipped, and [errors] does not hear of it. *)
Theorem duplicate_iff_code_or_message assignments results word s row reply w error :
  payload assignments word = Returns row ->
  insert_row row (world s) = (Returns reply, w) ->
  Pg.err reply = Some error ->
  let results' := classify results word reply in
  let conflict := Pg.code error = Some "23505" \/
                  exists pre post, Pg.message error = pre +:+ "duplicate" +:+ post in
  process_word assignments results word s =
    (Returns results', {| world := w; console := console s |}) /\
  (results' = push_skipped results (NewWord.word word) <-> conflict) /\
  (results' = push_error results (error_for word (Pg.message error)) <-> ~ conflict) /\
  (Pg.code error <> Some "23505" ->
   includes (Pg.message error) "duplicate" = true ->
   skipped results' = skipped results ++ [NewWord.word word] /\
   errors results' = errors results).
Proof.
  intros Hrow Hins Herr results' conflict.
  assert (Hdup : is_duplicate error = true <-> conflict).
  { unfold is_duplicate, conflict.
    rewrite orb_true_iff, bool_decide_eq_true, includes_substring. reflexivity. }
  assert (Hne : forall e, push_skipped results (NewWord.word word) <> push_error results e).
  { intros e Heq. apply (f_equal skipped) in Heq. simpl in Heq.
    apply (f_equal length) in Heq. rewrite length_app in Heq. simpl in Heq. lia. }
  split; [rewrite process_word_eq, Hrow, Hins; reflexivity|].
  subst results'. unfold classify. rewrite Herr.
  destruct (is_duplicate error) eqn:E.
  - assert conflict by (apply Hdup; reflexivity).
    repeat split; try tauto.
    intros Heq. exfalso. exact (Hne _ Heq).
  - assert (~ conflict) by (rewrite <- Hdup; discriminate).
    repeat split; try tauto.
    + intros Heq. exfalso. exact (Hne _ (eq_sym Heq)).
    + exfalso. unfold is_duplicate in E. rewrite orb_false_iff in E. destruct E. congruence.
    + exfalso. unfold is_duplicate in E. rewrite orb_false_iff in E. destruct E. congruence.
Qed.


(** What [find] returns has a string under [word], so it is an object:
    the test [assignment ? ... : null] of the loop can only go by whether
    something was found. *)
Lemma found_is_object items w a :
  find_by_word items w = Returns (Some a) -> exists fields, a = JObj fields.
Proof.
  induction items as [|a0 rest IH]; [discriminate|]. cbn [find_by_word].
  destruct a0; cbn [get_prop strict_eq_string]; try discriminate; try exact IH.
  destruct (strict_eq_string _ w); [|exact IH].
  intros [= <-]. eauto.
Qed.

(** [find] passes over an element that is neither null nor undefined and
    whose [word] is not the word looked for. *)
Lemma find_passes_over pre rest w :
  Forall (fun a => a <> JNull /\ a <> JUndefined /\
                   forall fs, a = JObj fs -> obj_get fs "word" <> Some (JStr w)) pre ->
  find_by_word (pre ++ rest) w = find_by_word rest w.
Proof.
  induction 1 as [|a pre (Hnull & Hundef & Hobj) _ IH]; [reflexivity|].
  cbn [app find_by_word].
  destruct a as [| |b|n|s0|items|fs]; cbn [get_prop strict_eq_string]; try congruence.
  destruct (obj_get fs "word") as [[| |b|n|s0|items|fs']|] eqn:E;
    unfold default; cbn [from_option id strict_eq_string]; try exact IH.
  destruct (String.eqb s0 w) eqn:Heq; [|exact IH].
  apply String.eqb_eq in Heq. subst s0. exfalso. exact (Hobj fs eq_refl E).
Qed.

(** Label propagation. When the assignments are an array in which the
    first element whose [word] is the word is the object [fields] (the
    elements before it are neither null nor that word's), the row the
    iteration hands to the store is the word's own word, meaning and
    synonyms with the [group_name] and the [sentence] of that object, as
    they are, whatever follows in the array; when no element of the array is
    the word's, the row carries null for both.  The iteration then files
    what the store answers to that row. *)
Theorem assigned_label_is_written_verbatim pre fields post word results s :
  let w := NewWord.word word in
  let row g t :=
    {| Entry.word := w;
       Entry.meaning := NewWord.meaning word;
       Entry.synonyms := default [] (NewWord.synonyms word);
       Entry.group_name := g;
       Entry.sentence := t |} in
  let hands items r :=
    payload (JArr items) word = Returns r /\
    process_word (JArr items) results word s =
      (Returns (match fst (insert_row r (world s)) with
                | Returns reply => classify results word reply
                | Throws msg => push_error results (error_for word msg)
                end),
       {| world := snd (insert_row r (world s)); console := console s |}) in
  Forall (fun a => a <> JNull /\ a <> JUndefined /\
                   forall fs, a = JObj fs -> obj_get fs "word" <> Some (JStr w)) pre ->
  (obj_get fields "word" = Some (JStr w) ->
   hands (pre ++ JObj fields :: post)
     (row (default JUndefined (obj_get fields "group_name"))
          (default JUndefined (obj_get fields "sentence")))) /\
  (forall g t,
     hands (pre ++ JObj [("word", JStr w); ("group_name", g); ("sentence", t)] :: post)
       (row g t)) /\
  hands pre (row JNull JNull).
Proof.
  intros w row hands Hpre.
  assert (Hhands : forall items r, payload (JArr items) word = Returns r -> hands items r).
  { intros items r Hp. split; [exact Hp|].
    rewrite process_word_eq, Hp.
    destruct (insert_row r (world s)) as [[msg|reply] w']; reflexivity. }
  assert (Hfound : forall fs, obj_get fs "word" = Some (JStr w) ->
            payload (JArr (pre ++ JObj fs :: post)) word =
              Returns (row (default JUndefined (obj_get fs "group_name"))
                           (default JUndefined (obj_get fs "sentence")))).
  { intros fs Hword. unfold payload, assignments_find. fold w.
    rewrite (find_passes_over pre (JObj fs :: post) w Hpre).
    cbn [find_by_word get_prop]. rewrite Hword.
    unfold default at 1. cbn [from_option id strict_eq_string].
    rewrite String.eqb_refl. reflexivity. }
  split; [|split].
  - intros Hword. apply Hhands, Hfound, Hword.
  - intros g t. apply Hhands.
    rewrite (Hfound [("word", JStr w); ("group_name", g); ("sentence", t)]) by reflexivity.
    reflexivity.
  - apply Hhands. unfold payload, assignments_find. fold w.
    rewrite <- (app_nil_r pre), (find_passes_over pre [] w Hpre). reflexivity.
Qed.

(** Partial failure isolation. In a batch of three words whose second
    insertion fails with an error that is no duplicate conflict, the first
    and the third row are added, in order, and the second word is the one
    entry of [errors], whatever the assignments are. *)
Theorem second_of_three_fails_alone
    assignments w1 w2 w3 p1 p2 p3 s r1 rows1 e r3 rows3 world1 world2 world3 :
  payload assignments w1 = Returns p1 ->
  payload assignments w2 = Returns p2 ->
  payload assignments w3 = Returns p3 ->
  insert_row p1 (world s) =
    (Returns {| Pg.data := Some (r1 :: rows1); Pg.err := None |}, world1) ->
  insert_row p2 world1 = (Returns {| Pg.data := None; Pg.err := Some e |}, world2) ->
  is_duplicate e = false ->
  insert_row p3 world2 =
    (Returns {| Pg.data := Some (r3 :: rows3); Pg.err := None |}, world3) ->
  for_each_word assignments no_results [w1; w2; w3] s =
    (Returns {| added := [r1; r3]; skipped := [];
                errors := [error_for w2 (Pg.message e)] |},
     {| world := world3; console := console s |}).
Proof.
  intros H1 H2 H3 I1 I2 He I3. cbn [for_each_word].
  unfold bind at 1. rewrite process_word_eq, H1, I1.
  unfold bind at 1. rewrite process_word_eq, H2. cbn [world console]. rewrite I2.
  unfold bind at 1. rewrite process_word_eq, H3. cbn [world console]. rewrite I3.
  unfold ret, classify. cbn [Pg.err Pg.data]. rewrite He. reflexivity.
Qed.

End IterationClaims.

(** ** The handler *)

Section HandlerFacts.
Context {World : Type} `{!Platform World}.

Implicit Types (words : list NewWord.t) (s : State World).

(** The helper never throws: it returns the parsed reply, or the
    fallback after logging the error. *)
Lemma getGroupNamesAndSentences_eq words groups s :
  getGroupNamesAndSentences words groups s =
    match generateContent (prompt words groups) (world s) with
    | (Throws msg, w) =>
        (Returns (fallback words),
         logged (ErrorFromAI msg) {| world := w; console := console s |})
    | (Returns text, w) =>
        match JSON_parse (cleanedText text) with
        | Some v => (Returns v, {| world := w; console := console s |})
        | None =>
            (Returns (fallback words),
             logged (ErrorFromAI syntax_error) {| world := w; console := console s |})
        end
    end.
Proof.
  unfold getGroupNamesAndSentences. run.
  destruct (generateContent _ (world s)) as [[msg|text] w]; [reflexivity|].
  simpl. destruct (JSON_parse (cleanedText text)); reflexivity.
Qed.

Lemma getGroupNamesAndSentences_returns words groups s :
  exists a s', getGroupNamesAndSentences words groups s = (Returns a, s').
Proof.
  rewrite getGroupNamesAndSentences_eq.
  destruct (generateContent _ (world s)) as [[msg|text] w]; [eauto|].
  destruct (JSON_parse (cleanedText text)); eauto.
Qed.

(** Steps 2 and 3: the helper returns, the loop runs over all the words,
    and the response is built from both. *)
Lemma bulk_with_groups_run words groups s :
  exists a s1 rs s2,
    getGroupNamesAndSentences words groups (logged (ExistingGroups groups) s) =
      (Returns a, s1) /\
    for_each_word a no_results words (logged (AiAssignments a) s1) = (Returns rs, s2) /\
    bulk_with_groups words groups s = (respond words a rs, s2).
Proof.
  destruct (getGroupNamesAndSentences_returns words groups (logged (ExistingGroups groups) s))
    as (a & s1 & Ea).
  destruct (for_each_word_returns a no_results words (logged (AiAssignments a) s1))
    as (rs & s2 & Er).
  exists a, s1, rs, s2. split; [exact Ea|]. split; [exact Er|].
  unfold bulk_with_groups, respond.
  unfold bind at 1, console_write at 1. unfold bind at 1, try_catch at 1.
  unfold bind at 1. fold (logged (ExistingGroups groups) s). rewrite Ea.
  unfold bind at 1, console_write at 1, ret at 1.
  unfold bind at 1. rewrite Er.
  unfold bind, eval, ret. destruct (length_gt_0 a); reflexivity.
Qed.

Lemma bulk_eq word rest s :
  bulk (Some (word :: rest)) s =
    match select_group_names (world s) with
    | (Throws msg, w) => (Returns (ServerError msg), {| world := w; console := console s |})
    | (Returns reply, w) =>
        settle (bulk_with_groups (word :: rest) (existingGroups_of (Pg.data reply))
                  (after_read reply w s))
    end.
Proof.
  unfold bulk, settle, after_read. unfold try_catch at 1, bind at 1, await at 1.
  destruct (select_group_names (world s)) as [[msg|reply] w]; [reflexivity|].
  unfold bind at 1. destruct (Pg.err reply); reflexivity.
Qed.

(** A 201 response comes from a run of the loop over all the words. *)
Lemma bulk_created_inv words s body s' :
  bulk (Some words) s = (Returns (Created body), s') ->
  exists a s1 used,
    for_each_word a no_results words s1 = (Returns (results body), s') /\
    length_gt_0 a = Returns used /\
    body = summary words used (results body).
Proof.
  destruct words as [|word rest]; [unfold bulk; run; discriminate|].
  rewrite bulk_eq.
  destruct (select_group_names (world s)) as [[msg|reply] w]; [discriminate|].
  destruct (bulk_with_groups_run (word :: rest) (existingGroups_of (Pg.data reply))
              (after_read reply w s)) as (a & s1 & rs & s2 & _ & Er & ->).
  unfold settle, respond. destruct (length_gt_0 a) as [msg|used] eqn:El; [discriminate|].
  intros [= <- <-]. exists a, (logged (AiAssignments a) s1), used. auto.
Qed.

End HandlerFacts.


(** ** The console does not steer a handler *)

Create HintDb framed.

Section Console.
Context {World : Type} `{!Platform World}.

Lemma framed_ret {A} (a : A) : framed (ret a : Run World A).
Proof. intros c s. reflexivity. Qed.

Lemma framed_eval {A} (o : Outcome A) : framed (eval o : Run World A).
Proof. intros c s. reflexivity. Qed.

Lemma framed_await {A} (call : World -> Outcome A * World) : framed (await call).
Proof. intros c s. unfold await, prepend. simpl. destruct (call (world s)); reflexivity. Qed.

Lemma framed_console_write l : framed (console_write (World := World) l).
Proof.
  intros c s. unfold console_write, logged, prepend. simpl. rewrite app_assoc. reflexivity.
Qed.

Lemma framed_bind {A B} (m : Run World A) (k : A -> Run World B) :
  framed m -> (forall a, framed (k a)) -> framed (bind m k).
Proof.
  intros Hm Hk c s. unfold bind. rewrite Hm.
  destruct (m s) as [[msg|a] s']; simpl; [reflexivity|]. apply Hk.
Qed.

Lemma framed_try_catch {A} (m : Run World A) (h : string -> Run World A) :
  framed m -> (forall msg, framed (h msg)) -> framed (try_catch m h).
Proof.
  intros Hm Hh c s. unfold try_catch. rewrite Hm.
  destruct (m s) as [[msg|a] s']; simpl; [apply Hh|reflexivity].
Qed.

#[local] Hint Resolve framed_ret framed_eval framed_await framed_console_write : framed.

Ltac framed :=
  repeat first
    [ apply framed_bind; [|intros ?]
    | apply framed_try_catch; [|intros ?]
    | solve [auto with framed] ].

Lemma framed_getGroupNamesAndSentences words groups :
  framed (getGroupNamesAndSentences words groups).
Proof. unfold getGroupNamesAndSentences. framed. Qed.

Lemma framed_process_word assignments results word :
  framed (process_word assignments results word).
Proof. unfold process_word. framed. Qed.

Lemma framed_for_each_word assignments results words :
  framed (for_each_word assignments results words).
Proof.
  revert results. induction words as [|word rest IH]; intros results; simpl.
  - apply framed_ret.
  - apply framed_bind; [apply framed_process_word|intros r; apply IH].
Qed.

Lemma framed_bulk_with_groups words groups : framed (bulk_with_groups words groups).
Proof.
  unfold bulk_with_groups.
  pose proof framed_getGroupNamesAndSentences. pose proof framed_for_each_word.
  framed.
Qed.

End Console.

(** ** The claims about the enriched bulk route *)

Section BulkClaims.
Context {World : Type} `{!Platform World}.

Implicit Types (words : list NewWord.t) (s : State World).

(** C1, as the code has it. Whenever the bulk endpoint answers 201 for a
    batch, [totalSent] is the number of words submitted, every word is in at
    most one of [added], [skipped] and [errors], and the three counts add up
    to [totalSent] less the number of insertions that were answered without
    an error and without a row; so they add up to [totalSent] when the store
    gives no such answer. *)
Theorem counts_account_for_every_word words s body s' :
  bulk (Some words) s = (Returns (Created body), s') ->
  totalSent body = length words /\
  addedCount body = length (added (results body)) /\
  skippedCount body = length (skipped (results body)) /\
  errorCount body = length (errors (results body)) /\
  (addedCount body + skippedCount body + errorCount body <= totalSent body)%nat /\
  (exists assignments s1,
     for_each_word assignments no_results words s1 = (Returns (results body), s') /\
     (addedCount body + skippedCount body + errorCount body +
      silent_inserts assignments words s1 = totalSent body)%nat) /\
  (never_silent ->
   (addedCount body + skippedCount body + errorCount body = totalSent body)%nat).
Proof.
  intros Hrun.
  destruct (bulk_created_inv _ _ _ _ Hrun) as (a & s1 & used & Hloop & _ & Hbody).
  pose proof (for_each_word_filed _ _ _ _ _ _ Hloop) as Hacc.
  unfold filed in Hacc. simpl in Hacc.
  rewrite Hbody. simpl.
  repeat split; try lia.
  - exists a, s1. split; [exact Hloop|lia].
  - intros Hnever.
    assert (Hzero : forall ws st, silent_inserts a ws st = 0%nat).
    { induction ws as [|w ws IH]; intros st; simpl; [reflexivity|].
      rewrite IH. unfold silent_at.
      destruct (payload a w) as [msg|row]; [reflexivity|].
      destruct (insert_row row (world st)) as [[msg|reply] w'] eqn:E; [reflexivity|].
      simpl. rewrite (Hnever _ _ _ _ E). reflexivity. }
    rewrite Hzero in Hacc. lia.
Qed.

(** C2, what the code does. When the call of the model throws, the helper
    returns its fallback, an array with one element per word, so for a
    non-empty batch the 201 response carries [aiProcessingUsed = true]. *)
Theorem failed_enrichment_reports_ai_used word rest s reply w msg w' :
  select_group_names (world s) = (Returns reply, w) ->
  generateContent (prompt (word :: rest) (existingGroups_of (Pg.data reply))) w =
    (Throws msg, w') ->
  exists body s',
    bulk (Some (word :: rest)) s = (Returns (Created body), s') /\
    aiProcessingUsed body = true /\
    In (ErrorFromAI msg) (console s').
Proof.
  intros Hsel Hgen. rewrite bulk_eq, Hsel.
  destruct (bulk_with_groups_run (word :: rest) (existingGroups_of (Pg.data reply))
              (after_read reply w s)) as (a & s1 & rs & s2 & Ha & Hr & ->).
  rewrite getGroupNamesAndSentences_eq in Ha.
  assert (Hw : world (logged (ExistingGroups (existingGroups_of (Pg.data reply)))
                        (after_read reply w s)) = w).
  { unfold after_read. destruct (Pg.err reply); reflexivity. }
  rewrite Hw, Hgen in Ha. injection Ha as <- <-.
  unfold respond, settle. simpl.
  eexists _, s2. split; [reflexivity|]. split; [reflexivity|].
  pose proof (framed_for_each_word (fallback (word :: rest)) no_results (word :: rest)) as Hf.
  match type of Hr with for_each_word _ _ _ ?st = _ =>
    specialize (Hf (console st) {| world := world st; console := [] |}) end.
  unfold prepend at 1 in Hf. simpl in Hf. rewrite app_nil_r in Hf.
  match type of Hr with for_each_word _ _ _ ?st = _ =>
    change st with {| world := world st; console := console st |} in Hr end.
  simpl in Hr. rewrite Hf in Hr. injection Hr as _ <-.
  unfold prepend. simpl. apply in_or_app. left.
  apply in_or_app. left. apply in_or_app. right. left. reflexivity.
Qed.

(** C3, what the code does. A reply that parses is returned as parsed,
    whatever the value: nothing checks that it is an array. *)
Theorem parsed_reply_is_returned_unchecked words groups s text w v :
  generateContent (prompt words groups) (world s) = (Returns text, w) ->
  JSON_parse (cleanedText text) = Some v ->
  getGroupNamesAndSentences words groups s =
    (Returns v, {| world := w; console := console s |}).
Proof.
  intros Hgen Hparse. rewrite getGroupNamesAndSentences_eq, Hgen, Hparse. reflexivity.
Qed.

(** The fallback answers every lookup of a requested word with a null group
    and a null sentence. *)
Lemma fallback_payload words word :
  In (NewWord.word word) (map NewWord.word words) ->
  payload (fallback words) word = Returns (row_of word JNull JNull).
Proof.
  intros Hin. unfold payload, fallback, assignments_find.
  assert (H : exists w0, find_by_word
                (map (fun w => JObj [("word", JStr (NewWord.word w));
                                     ("group_name", JNull); ("sentence", JNull)]) words)
                (NewWord.word word)
              = Returns (Some (JObj [("word", JStr (NewWord.word w0));
                                     ("group_name", JNull); ("sentence", JNull)]))).
  { induction words as [|w ws IH]; [destruct Hin|].
    simpl.
    destruct (String.eqb (NewWord.word w) (NewWord.word word)) eqn:E.
    - exists w. reflexivity.
    - apply IH. destruct Hin as [Heq|Hin]; [|exact Hin].
      apply String.eqb_neq in E. congruence. }
  destruct H as [w0 ->]. reflexivity.
Qed.


(** C7. When the read of the existing labels fails (the reply carries an
    error and no data), the handler writes the error to the console and goes
    on with the empty label set; response and world are those of steps 2 and
    3 run with no labels, so the error reaches the caller nowhere, and the
    loop runs over every word of the batch. *)
Theorem failed_label_read_is_recovered word rest s error w :
  select_group_names (world s) =
    (Returns {| Pg.data := None; Pg.err := Some error |}, w) ->
  let words := word :: rest in
  let run := bulk_with_groups words [] {| world := w; console := [] |} in
  bulk (Some words) s =
    settle (bulk_with_groups words []
              (logged (ErrorFetchingGroups error) {| world := w; console := console s |})) /\
  fst (bulk (Some words) s) = fst (settle run) /\
  world (snd (bulk (Some words) s)) = world (snd run) /\
  console (snd (bulk (Some words) s)) =
    console s ++ [ErrorFetchingGroups error] ++ console (snd run) /\
  exists assignments s1 results s2,
    for_each_word assignments no_results words s1 = (Returns results, s2) /\
    fst run = respond words assignments results.
Proof.
  intros Hsel words run.
  assert (Heq : bulk (Some words) s =
                settle (bulk_with_groups words []
                  (logged (ErrorFetchingGroups error) {| world := w; console := console s |}))).
  { unfold words. rewrite bulk_eq, Hsel. reflexivity. }
  pose proof (framed_bulk_with_groups words [] (console s ++ [ErrorFetchingGroups error])
                {| world := w; console := [] |}) as Hframe.
  unfold prepend at 1 in Hframe. simpl in Hframe. rewrite app_nil_r in Hframe.
  unfold logged in Heq. simpl in Heq. rewrite Hframe in Heq. fold run in Heq.
  split; [unfold words; rewrite bulk_eq, Hsel; reflexivity|].
  rewrite Heq. unfold settle, prepend.
  destruct (bulk_with_groups_run words [] {| world := w; console := [] |})
    as (a & s1 & rs & s2 & _ & Hr & Hrun).
  fold run in Hrun.
  destruct run as [[msg|response] srun]; simpl; rewrite <- app_assoc;
    (repeat split; try reflexivity);
    exists a, (logged (AiAssignments a) s1), rs, s2; (split; [exact Hr|]);
    injection Hrun as <- _; reflexivity.
Qed.

End BulkClaims.

(** ** The claims, run on concrete worlds *)

(** The store of [Mem] always reports: an error, or the row it wrote. *)
Lemma mem_never_silent : never_silent (World := Mem.t).
Proof.
  intros row w reply w'. simpl. unfold Mem.insert.
  destruct (Mem.present (Entry.word row) (Mem.table w)); intros [= <- _]; reflexivity.
Qed.

(** C1 fails as stated: the model is down, the store answers the one
    insertion without an error and without a row, and the word is in none of
    the three lists, so the counts add up to 0 while [totalSent] is 1. *)
Lemma silent_insert_breaks_the_count :
  exists body s',
    bulk (Some [Samples.happy]) (Samples.offline [Samples.nothing]) =
      (Returns (Created body), s') /\
    totalSent body = 1%nat /\
    results body = no_results /\
    (addedCount body + skippedCount body + errorCount body)%nat <> totalSent body.
Proof.
  eexists _, _. split; [vm_compute; reflexivity|].
  split; [reflexivity|]. split; [reflexivity|]. simpl. discriminate.
Qed.

(** C1 as amended, on the store with a unique [word] column: a batch with a
    repeated word. *)
Lemma counts_account_for_every_word_witness :
  exists body s',
    bulk (Some [Samples.happy; Samples.run_; Samples.happy])
         (Mem.start {| Mem.table := []; Mem.model := [] |}) =
      (Returns (Created body), s') /\
    (addedCount body + skippedCount body + errorCount body = totalSent body)%nat.
Proof.
  destruct (bulk (Some [Samples.happy; Samples.run_; Samples.happy])
              (Mem.start {| Mem.table := []; Mem.model := [] |}))
    as [[msg|[body|e|d]] s'] eqn:E; try (vm_compute in E; discriminate).
  exists body, s'. split; [reflexivity|].
  apply (counts_account_for_every_word _ _ _ _ E). exact mem_never_silent.
Defined.

(** C2 at a concrete input: one word, the model is down, the store writes
    the row. *)
Lemma failed_enrichment_reports_ai_used_witness :
  exists body s',
    bulk (Some [Samples.happy])
         (Samples.offline [Samples.stored (row_of Samples.happy JNull JNull)]) =
      (Returns (Created body), s') /\
    aiProcessingUsed body = true /\
    In (ErrorFromAI "model unavailable") (console s').
Proof.
  exact (failed_enrichment_reports_ai_used Samples.happy []
           (Samples.offline [Samples.stored (row_of Samples.happy JNull JNull)])
           _ _ _ _ eq_refl eq_refl).
Defined.

(** C3 at a concrete input: the model answers the text of an empty object,
    and the helper returns that object, which is not the fallback. *)
Lemma parsed_reply_is_returned_unchecked_witness :
  fst (getGroupNamesAndSentences [Samples.happy] [] (Samples.answering "{}" [])) =
    Returns (JObj []) /\
  JObj [] <> fallback [Samples.happy].
Proof.
  split; [|discriminate].
  exact (f_equal fst
           (parsed_reply_is_returned_unchecked [Samples.happy] []
              (Samples.answering "{}" []) "{}" _ (JObj []) eq_refl eq_refl)).
Defined.


(** C7 at a concrete input: the read of the labels times out, the model
    is down, the store writes the row; the response is the 201 of a run
    without labels, and the console starts with the error of the read. *)
Lemma failed_label_read_is_recovered_witness :
  exists body s',
    bulk (Some [Samples.happy])
      (Scripted.start {| Scripted.model := [];
                         Scripted.labels :=
                           Returns {| Pg.data := None; Pg.err := Some Samples.timeout |};
                         Scripted.inserts := [Samples.stored (row_of Samples.happy JNull JNull)];
                         Scripted.written := [] |}) = (Returns (Created body), s') /\
    addedCount body = 1%nat /\
    console s' = [ErrorFetchingGroups Samples.timeout; ExistingGroups [];
                  ErrorFromAI "model unavailable";
                  AiAssignments (fallback [Samples.happy])].
Proof.
  pose proof (failed_label_read_is_recovered Samples.happy []
    (Scripted.start {| Scripted.model := [];
                       Scripted.labels :=
                         Returns {| Pg.data := None; Pg.err := Some Samples.timeout |};
                       Scripted.inserts := [Samples.stored (row_of Samples.happy JNull JNull)];
                       Scripted.written := [] |})
    Samples.timeout _ eq_refl) as (H & _).
  eexists _, _. split; [rewrite H; vm_compute; reflexivity|].
  split; reflexivity.
Defined.

(** C8 at a concrete input: a reply with no error and an empty row set
    leaves the three lists as they were. *)
Lemma iteration_files_at_most_once_witness :
  exists s',
    process_word (fallback [Samples.happy]) no_results Samples.happy
      (Samples.offline [Samples.nothing]) = (Returns no_results, s').
Proof.
  destruct (iteration_files_at_most_once (fallback [Samples.happy]) no_results
              Samples.happy (Samples.offline [Samples.nothing]))
    as (results' & s' & Hrun & _ & _ & Hsilent).
  exists s'. rewrite Hrun.
  rewrite (Hsilent _ _ _ eq_refl eq_refl eq_refl (or_intror eq_refl)). reflexivity.
Defined.

(** C9 at a concrete input: a violated check constraint, code 23514, whose
    message contains the text duplicate, is filed under [skipped]. *)
Lemma duplicate_iff_code_or_message_witness :
  fst (process_word (fallback [Samples.happy]) no_results Samples.happy
         (Samples.offline [Samples.refused Samples.check_failed])) =
    Returns (push_skipped no_results "elated") /\
  Pg.code Samples.check_failed <> Some "23505".
Proof.
  edestruct (duplicate_iff_code_or_message (fallback [Samples.happy]) no_results
               Samples.happy (Samples.offline [Samples.refused Samples.check_failed]))
    as (Hrun & Hskip & _ & _); [reflexivity..|].
  split; [|discriminate].
  rewrite Hrun. cbn [fst]. apply (f_equal Returns). apply Hskip. right.
  exists "new row violates check constraint no_duplicate_letters: ", " letters".
  reflexivity.
Defined.

(** ** The chunked bulk route of server.js *)

Section ChunkClaims.
Import ServerJs.
Context {World Word Row : Type} `{!BatchStore World Word Row}.

Implicit Types (words : list Word).

(** From a non-negative offset, a batch is the next 50 words. *)
Lemma batch_of_take_drop words (offset : Z) :
  0 <= offset ->
  batch_of words offset = take 50 (drop (Z.to_nat offset) words).
Proof.
  intros Hoff. unfold batch_of, slice.
  destruct (Z.ltb_spec offset 0) as [?|_]; [lia|].
  destruct (Z.ltb_spec (offset + 50) 0) as [?|_]; [lia|].
  destruct (Z_le_gt_dec (Z.of_nat (length words)) offset) as [Hge|Hlt].
  - rewrite !Z.min_r by lia. rewrite Z.sub_diag. simpl.
    rewrite (drop_ge words (Z.to_nat offset)) by lia. reflexivity.
  - rewrite (Z.min_l offset) by lia.
    destruct (Z_le_gt_dec (offset + 50) (Z.of_nat (length words))) as [Hin|Hout].
    + rewrite Z.min_l by lia. f_equal. lia.
    + rewrite Z.min_r by lia.
      rewrite !take_ge; [reflexivity| |]; rewrite length_drop; lia.
Qed.

(** What a call answers when the store writes the batch. *)
Lemma bulk_chunk_added words (offset : Z) w c rows w' :
  0 <= offset < Z.of_nat (length words) ->
  insert_batch (batch_of words offset) w =
    (Returns {| Pg.data := Some rows; Pg.err := None |}, w') ->
  let newOffset := offset + Z.of_nat (length (batch_of words offset)) in
  bulk_chunk (Some words) (Some offset) {| world := w; console := c |} =
    (Returns (BatchAdded {| batchSize := length rows;
                            totalProcessed := newOffset;
                            totalWords := length words;
                            hasMore := newOffset <? Z.of_nat (length words);
                            nextOffset := if newOffset <? Z.of_nat (length words)
                                          then Some newOffset else None;
                            data := rows |}),
     {| world := w'; console := c |}).
Proof.
  intros Hoff Hins newOffset. unfold bulk_chunk.
  destruct words as [|word rest]; [simpl in Hoff; lia|].
  assert (Hlen : length (batch_of (word :: rest) offset) <> 0%nat).
  { rewrite batch_of_take_drop by lia. rewrite length_take, length_drop. lia. }
  unfold try_catch. cbn [default from_option id]. cbv zeta.
  rewrite bool_decide_eq_false_2 by exact Hlen.
  unfold bind at 1, await at 1. cbn [world console]. rewrite Hins.
  cbn [Pg.err Pg.data]. reflexivity.
Qed.


(** Resuming. A call at an offset inside the words, answered by a store
    that writes the batch, reports the words processed so far, says whether
    words remain, and names the offset of the next call exactly then; its
    batch and the words after it are the words from the offset on. *)
Theorem chunk_call_resumes words (offset : Z) w c rows w' :
  0 <= offset < Z.of_nat (length words) ->
  insert_batch (batch_of words offset) w =
    (Returns {| Pg.data := Some rows; Pg.err := None |}, w') ->
  exists b,
    bulk_chunk (Some words) (Some offset) {| world := w; console := c |} =
      (Returns (BatchAdded b), {| world := w'; console := c |}) /\
    totalProcessed b = Z.min (offset + 50) (Z.of_nat (length words)) /\
    (hasMore b = true <-> offset + 50 < Z.of_nat (length words)) /\
    nextOffset b = (if hasMore b then Some (offset + 50) else None) /\
    batch_of words offset ++ drop (Z.to_nat (totalProcessed b)) words =
      drop (Z.to_nat offset) words.
Proof.
  intros Hoff Hins. eexists. split; [apply bulk_chunk_added; eassumption|].
  cbn [totalProcessed hasMore nextOffset].
  assert (Hlen : Z.of_nat (length (batch_of words offset)) =
                 Z.min 50 (Z.of_nat (length words) - offset)).
  { rewrite batch_of_take_drop by lia. rewrite length_take, length_drop. lia. }
  rewrite Hlen. split; [lia|]. split; [rewrite Z.ltb_lt; lia|]. split.
  - destruct (Z.ltb_spec (offset + Z.min 50 (Z.of_nat (length words) - offset))
                (Z.of_nat (length words))); [f_equal; lia|reflexivity].
  - rewrite batch_of_take_drop by lia.
    replace (Z.to_nat (offset + Z.min 50 (Z.of_nat (length words) - offset)))
      with (Z.to_nat offset + Nat.min 50 (length words - Z.to_nat offset))%nat by lia.
    rewrite <- drop_drop.
    rewrite <- (take_drop 50 (drop (Z.to_nat offset) words)) at 3.
    f_equal.
    destruct (Nat.le_gt_cases 50 (length words - Z.to_nat offset)) as [Hle|Hgt].
    + rewrite Nat.min_l by exact Hle. reflexivity.
    + rewrite Nat.min_r by lia.
      rewrite !drop_ge; [reflexivity| |]; rewrite length_drop; lia.
Qed.

End ChunkClaims.


(** ** The groups view *)

Section GroupsFacts.
Context {World : Type} `{!GroupsStore World}.

Implicit Types (groups : gmap string (list GroupItem.t)) (data : list StoredRow.t).

Lemma bucket_cons k row data :
  bucket k (row :: data) =
    if decide (key_of (StoredRow.group_name row) = k)
    then item_of row :: bucket k data
    else bucket k data.
Proof.
  unfold bucket. rewrite filter_cons.
  destruct (decide (key_of (StoredRow.group_name row) = k)); reflexivity.
Qed.

Lemma forEach_group_filled data groups :
  plain_names data ->
  exists groups',
    forEach_group groups data = Returns groups' /\
    forall k, groups' !! k = filled (groups !! k) (bucket k data).
Proof.
  intros Hplain. revert groups.
  induction Hplain as [|row data Hrow _ IH]; intros groups.
  - exists groups. split; [reflexivity|]. intros k. unfold bucket, filled. simpl.
    destruct (groups !! k); [rewrite app_nil_r|]; reflexivity.
  - cbn [forEach_group]. unfold group_step. rewrite Hrow.
    set (k0 := key_of (StoredRow.group_name row)).
    destruct (groups !! k0) as [items|] eqn:E.
    + destruct (IH (<[k0 := items ++ [item_of row]]> groups)) as (groups' & Hrun & Hget).
      exists groups'. split; [exact Hrun|]. intros k. rewrite Hget, bucket_cons. fold k0.
      destruct (decide (k0 = k)) as [<-|Hne].
      * rewrite lookup_insert_eq, E. unfold filled. rewrite <- app_assoc. reflexivity.
      * rewrite lookup_insert_ne by exact Hne. reflexivity.
    + destruct (IH (<[k0 := [item_of row]]> groups)) as (groups' & Hrun & Hget).
      exists groups'. split; [exact Hrun|]. intros k. rewrite Hget, bucket_cons. fold k0.
      destruct (decide (k0 = k)) as [<-|Hne].
      * rewrite lookup_insert_eq, E. reflexivity.
      * rewrite lookup_insert_ne by exact Hne. reflexivity.
Qed.

(** The first row named like an inherited property makes the loop throw. *)
Lemma forEach_group_inherited groups row data :
  groups !! key_of (StoredRow.group_name row) = None ->
  inherited (key_of (StoredRow.group_name row)) = true ->
  forEach_group groups (row :: data) =
    Throws "groups[word.group_name].push is not a function".
Proof.
  intros Hnone Hinh. cbn [forEach_group]. unfold group_step. rewrite Hnone, Hinh.
  reflexivity.
Qed.

(** The groups view, for rows that are not named like inherited properties:
    the response holds, under each key, the elements of the rows with that
    [group_name], in the order fetched, and no other key; so every fetched
    row is under its own [group_name] and under no other. *)
Theorem groups_view_partitions_plain_names data s w :
  select_grouped (world s) = (Returns {| Pg.data := Some data; Pg.err := None |}, w) ->
  plain_names data ->
  exists groups,
    groups_view s = (Returns (GroupsOk groups), {| world := w; console := console s |}) /\
    (forall k, groups !! k = property (bucket k data)) /\
    (forall row, In row data ->
       exists items, groups !! key_of (StoredRow.group_name row) = Some items /\
                     In (item_of row) items).
Proof.
  intros Hsel Hplain.
  destruct (forEach_group_filled data ∅ Hplain) as (groups & Hrun & Hget).
  exists groups. split; [|split].
  - unfold groups_view, try_catch, bind at 1, await at 1. rewrite Hsel.
    cbn [Pg.err Pg.data]. unfold bind, eval, ret. rewrite Hrun. reflexivity.
  - intros k. rewrite Hget, lookup_empty. reflexivity.
  - intros row Hin. rewrite Hget, lookup_empty. unfold filled.
    assert (Hb : In (item_of row) (bucket (key_of (StoredRow.group_name row)) data)).
    { unfold bucket. apply in_map. apply list_elem_of_In, list_elem_of_filter.
      split; [reflexivity|apply list_elem_of_In; exact Hin]. }
    destruct (bucket (key_of (StoredRow.group_name row)) data) as [|i items] eqn:E;
      [destruct Hb|].
    exists (i :: items). split; [reflexivity|exact Hb].
Qed.

End GroupsFacts.

(** The query of the reference store fetches the rows with a group, and
    those only. *)
Lemma query_fetches_rows_with_group table row :
  In row (GroupsRef.query table) <->
  In row table /\ exists g, StoredRow.group_name row = Some g.
Proof.
  unfold GroupsRef.query. rewrite <- !list_elem_of_In.
  rewrite merge_sort_Permutation, list_elem_of_filter.
  unfold GroupsRef.has_group. rewrite bool_decide_eq_true. unfold is_Some. tauto.
Qed.

(** C10 fails on a group named like an inherited property: with one row
    under the label constructor, [groups.constructor] is the inherited
    function, no array is stored, [push] is no method of it, and the view
    answers 500 instead of the object. *)
Theorem inherited_group_name_breaks_groups_view :
  groups_view {| world := [Samples.builder]; console := [] |} =
    (Returns (GroupsServerError "groups[word.group_name].push is not a function"),
     {| world := [Samples.builder]; console := [] |}).
Proof. vm_compute. reflexivity. Qed.

(** The groups view on the reference store: a row with a label and a row
    without one. *)
Lemma groups_view_partitions_plain_names_witness :
  exists groups,
    fst (groups_view {| world := [Samples.stray; Samples.glad]; console := [] |}) =
      Returns (GroupsOk groups) /\
    groups !! "feeling happy" = Some [item_of Samples.glad] /\
    groups !! "null" = None.
Proof.
  edestruct (groups_view_partitions_plain_names (World := list StoredRow.t)
               (GroupsRef.query [Samples.stray; Samples.glad])
               {| world := [Samples.stray; Samples.glad]; console := [] |})
    as (groups & Hrun & Hget & _).
  - reflexivity.
  - vm_compute. repeat constructor.
  - exists groups. rewrite Hrun. split; [reflexivity|].
    rewrite !Hget. split; vm_compute; reflexivity.
Defined.

(** ** Submitting a batch twice to the store with a unique word column *)

Lemma payload_word assignments word row :
  payload assignments word = Returns row -> Entry.word row = NewWord.word word.
Proof.
  unfold payload.
  destruct (assignments_find assignments (NewWord.word word)) as [msg|a]; [discriminate|].
  destruct (assigned a "group_name") as [msg|g]; [discriminate|].
  destruct (assigned a "sentence") as [msg|t]; [discriminate|].
  intros [= <-]. reflexivity.
Qed.

Lemma searchable_fallback words : searchable (fallback words) words = true.
Proof.
  unfold searchable. apply forallb_forall. intros word Hin.
  rewrite fallback_payload; [reflexivity|]. apply in_map. exact Hin.
Qed.

Lemma present_app x t1 t2 :
  Mem.present x (t1 ++ t2) = Mem.present x t1 || Mem.present x t2.
Proof.
  unfold Mem.present. rewrite map_app.
  destruct (bool_decide (x ∈ map Entry.word t1)) eqn:E1;
    destruct (bool_decide (x ∈ map Entry.word t2)) eqn:E2; simpl;
    rewrite ?bool_decide_eq_true, ?bool_decide_eq_false in *;
    rewrite elem_of_app; tauto.
Qed.

(** A searchable value has a length to compare. *)
Lemma searchable_length_gt_0 `{!Platform World} a word rest :
  searchable a (word :: rest) = true -> exists used, length_gt_0 a = Returns used.
Proof.
  simpl. intros H. apply andb_true_iff in H as [H _].
  unfold payload, assignments_find in H. destruct a; try discriminate.
  simpl. eauto.
Qed.

(** The store with a unique [word] column, under any runtime. *)
Section MemRuntime.
Context (parse : string -> option JsVal) (gt : JsVal -> Outcome bool).

Local Abbreviation runtime := (Mem.with_runtime parse gt).

(** One iteration on that store. *)
Lemma mem_process_word assignments results word row table script c :
  payload assignments word = Returns row ->
  process_word (Platform0 := runtime) assignments results word
    {| world := {| Mem.table := table; Mem.model := script |}; console := c |} =
    if Mem.present (NewWord.word word) table
    then (Returns (push_skipped results (NewWord.word word)),
          {| world := {| Mem.table := table; Mem.model := script |}; console := c |})
    else (Returns (push_added results row),
          {| world := {| Mem.table := table ++ [row]; Mem.model := script |}; console := c |}).
Proof.
  intros Hrow. rewrite process_word_eq, Hrow. cbn [world console insert_row Mem.with_runtime].
  unfold Mem.insert. cbn [Mem.table Mem.model]. rewrite (payload_word _ _ _ Hrow).
  destruct (Mem.present (NewWord.word word) table); reflexivity.
Qed.

(** The first run of the loop leaves every word of the batch in the table,
    and takes nothing out of it. *)
Lemma mem_loop_fills assignments words :
  searchable assignments words = true ->
  forall results table script c results' s',
    for_each_word (Platform0 := runtime) assignments results words
      {| world := {| Mem.table := table; Mem.model := script |}; console := c |} =
      (Returns results', s') ->
    (forall x, Mem.present x table = true -> Mem.present x (Mem.table (world s')) = true) /\
    (forall word, In word words ->
       Mem.present (NewWord.word word) (Mem.table (world s')) = true) /\
    Mem.model (world s') = script.
Proof.
  induction words as [|word rest IH]; intros Hsearch results table script c results' s'.
  - simpl. unfold ret. intros [= _ <-]. simpl. repeat split; auto.
  - simpl in Hsearch. apply andb_true_iff in Hsearch as [Hword Hrest].
    destruct (payload assignments word) as [msg|row] eqn:Hrow; [discriminate|].
    cbn [for_each_word]. unfold bind at 1. rewrite (mem_process_word _ _ _ _ _ _ _ Hrow).
    destruct (Mem.present (NewWord.word word) table) eqn:Hpresent; intros Hrun;
      destruct (IH Hrest _ _ _ _ _ _ Hrun) as (Hkeep & Hin & Hmodel).
    + repeat split; auto. intros w [<-|Hw]; auto.
    + assert (Hnew : Mem.present (NewWord.word word) (table ++ [row]) = true).
      { rewrite present_app. apply orb_true_iff. right.
        unfold Mem.present. simpl. rewrite (payload_word _ _ _ Hrow).
        apply bool_decide_eq_true. constructor. }
      repeat split; auto.
      * intros x Hx. apply Hkeep. rewrite present_app, Hx. reflexivity.
      * intros w [<-|Hw]; auto.
Qed.

(** A run of the loop over words that are all in the table skips each of
    them and leaves the store as it was. *)
Lemma mem_loop_skips assignments words :
  searchable assignments words = true ->
  forall results table script c,
    (forall word, In word words -> Mem.present (NewWord.word word) table = true) ->
    for_each_word (Platform0 := runtime) assignments results words
      {| world := {| Mem.table := table; Mem.model := script |}; console := c |} =
      (Returns {| added := added results;
                  skipped := skipped results ++ map NewWord.word words;
                  errors := errors results |},
       {| world := {| Mem.table := table; Mem.model := script |}; console := c |}).
Proof.
  induction words as [|word rest IH]; intros Hsearch results table script c Hall.
  - simpl. unfold ret. rewrite app_nil_r. destruct results; reflexivity.
  - simpl in Hsearch. apply andb_true_iff in Hsearch as [Hword Hrest].
    destruct (payload assignments word) as [msg|row] eqn:Hrow; [discriminate|].
    cbn [for_each_word]. unfold bind at 1. rewrite (mem_process_word _ _ _ _ _ _ _ Hrow).
    rewrite (Hall word) by (left; reflexivity).
    rewrite (IH Hrest) by (intros w Hw; apply Hall; right; exact Hw).
    simpl. rewrite <- app_assoc. reflexivity.
Qed.

(** The helper on the scripted model: a usable script gives searchable
    assignments, and the table is not touched. *)
Lemma mem_enrichment words groups table script c a s1 :
  Forall (fun o => Mem.usable parse words o = true) script ->
  getGroupNamesAndSentences (Platform0 := runtime) words groups
    {| world := {| Mem.table := table; Mem.model := script |}; console := c |} =
    (Returns a, s1) ->
  searchable a words = true /\
  Mem.table (world s1) = table /\
  Forall (fun o => Mem.usable parse words o = true) (Mem.model (world s1)).
Proof.
  intros Husable. rewrite getGroupNamesAndSentences_eq.
  cbn [world console generateContent JSON_parse Mem.with_runtime]. unfold Mem.generate.
  cbn [Mem.model Mem.table].
  destruct Husable as [|o script Ho Hscript].
  - intros [= <- <-]. simpl. auto using searchable_fallback.
  - destruct o as [msg|text].
    + intros [= <- <-]. simpl. auto using searchable_fallback.
    + unfold Mem.usable in Ho.
      destruct (parse (cleanedText text)) as [v|]; intros [= <- <-]; simpl;
        auto using searchable_fallback.
Qed.

(** A submission to the store with a unique [word] column, step by
    step. *)
Lemma mem_bulk_run word rest table script c :
  let words := word :: rest in
  Forall (fun o => Mem.usable parse words o = true) script ->
  exists a c1 script1 used rs s2,
    searchable a words = true /\
    Forall (fun o => Mem.usable parse words o = true) script1 /\
    for_each_word (Platform0 := runtime) a no_results words
      {| world := {| Mem.table := table; Mem.model := script1 |}; console := c1 |} =
      (Returns rs, s2) /\
    bulk (Platform0 := runtime) (Some words)
      {| world := {| Mem.table := table; Mem.model := script |}; console := c |} =
      (Returns (Created (summary words used rs)), s2).
Proof.
  intros words Husable. unfold words. rewrite bulk_eq.
  cbn [world console select_group_names Mem.with_runtime]. unfold Mem.select_labels.
  unfold after_read. cbn [Pg.err Pg.data Mem.table].
  cbn [console]. set (groups := existingGroups_of _).
  destruct (bulk_with_groups_run (Platform0 := runtime) (word :: rest) groups
              {| world := {| Mem.table := table; Mem.model := script |}; console := c |})
    as (a & s1 & rs & s2 & Ha & Hr & ->).
  unfold logged in Ha. cbn [world console] in Ha.
  destruct (mem_enrichment _ _ _ _ _ _ _ Husable Ha) as (Hsearch & Htable & Hscript).
  destruct (searchable_length_gt_0 (Platform0 := runtime) a word rest Hsearch) as [used Hused].
  destruct s1 as [[table1 script1] c1]. cbn [world Mem.table Mem.model] in *. subst table1.
  exists a, (c1 ++ [AiAssignments a]), script1, used, rs, s2.
  repeat split; try assumption.
  unfold respond, settle. rewrite Hused. reflexivity.
Qed.

(** Idempotence on the store with a unique [word] column, whatever the
    runtime's [JSON.parse] and [v > 0] are, for a model whose replies [find]
    can search (a failed call, a text that [JSON.parse] refuses, or a text it
    parses to an array with no null element before the match of a word): the
    second submission of a batch adds nothing, skips every word, reports no
    error and leaves the table as the first submission left it. *)
Theorem second_submission_skips_every_word word rest table script c :
  let words := word :: rest in
  Forall (fun o => Mem.usable parse words o = true) script ->
  let first := bulk (Platform0 := runtime) (Some words)
                 {| world := {| Mem.table := table; Mem.model := script |}; console := c |} in
  let second := bulk (Platform0 := runtime) (Some words) (snd first) in
  exists body1 body2,
    fst first = Returns (Created body1) /\
    fst second = Returns (Created body2) /\
    addedCount body2 = 0%nat /\
    skippedCount body2 = totalSent body2 /\
    errorCount body2 = 0%nat /\
    totalSent body2 = length words /\
    added (results body2) = [] /\
    skipped (results body2) = map NewWord.word words /\
    errors (results body2) = [] /\
    Mem.table (world (snd second)) = Mem.table (world (snd first)).
Proof.
  intros words Husable first second.
  destruct (mem_bulk_run word rest table script c Husable)
    as (a1 & c1 & script1 & used1 & rs1 & s2 & Hs1 & Hu1 & Hloop1 & Hrun1).
  fold words in Hs1, Hu1, Hloop1, Hrun1.
  destruct (mem_loop_fills a1 words Hs1 _ _ _ _ _ _ Hloop1) as (_ & Hall & Hmodel).
  subst second first. rewrite Hrun1. cbn [fst snd].
  destruct s2 as [[table2 script2] c2]. cbn [world Mem.table Mem.model] in *. subst script2.
  destruct (mem_bulk_run word rest table2 script1 c2 Hu1)
    as (a2 & c3 & script3 & used2 & rs2 & s4 & Hs2 & _ & Hloop2 & Hrun2).
  fold words in Hs2, Hloop2, Hrun2.
  rewrite (mem_loop_skips a2 words Hs2 no_results table2 script3 c3 Hall) in Hloop2.
  injection Hloop2 as <- <-. rewrite Hrun2. cbn [fst snd].
  eexists _, _. split; [reflexivity|]. split; [reflexivity|].
  simpl. rewrite length_map. repeat split.
Qed.

End MemRuntime.

(** The theorem above under the reference reader, on a batch with a repeated
    word; the model answers the first submission with a fenced array and is
    down for the second. *)
Lemma second_submission_skips_every_word_witness :
  exists body2,
    fst (bulk (Some [Samples.happy; Samples.run_; Samples.happy])
           (snd (bulk (Some [Samples.happy; Samples.run_; Samples.happy])
                   (Mem.start {| Mem.table := [];
                                 Mem.model := [Returns Samples.fenced_reply] |})))) =
      Returns (Created body2) /\
    (addedCount body2, skippedCount body2, errorCount body2) = (0, 3, 0)%nat.
Proof.
  destruct (second_submission_skips_every_word Json.json_parse RefRuntime.gt_zero
              Samples.happy [Samples.run_; Samples.happy]
              [] [Returns Samples.fenced_reply] [])
    as (body1 & body2 & _ & Hsecond & Hadded & Hskipped & Herrors & Hsent & _).
  - repeat constructor.
  - exists body2. split; [exact Hsecond|].
    rewrite Hadded, Hskipped, Herrors, Hsent. reflexivity.
Defined.

(** C5 fails when a reply of the model parses to something that is not an
    array: the first submission (model down, fallback) writes the word; the
    model answers the second with the text of an empty object, [find] is no
    method of it, and the word is filed under [errors], not [skipped]. *)
Theorem second_submission_errors_on_object_reply :
  exists body1 body2 s1 s2,
    bulk (Some [Samples.happy])
      (Mem.start {| Mem.table := []; Mem.model := [Throws "quota exceeded"; Returns "{}"] |}) =
      (Returns (Created body1), s1) /\
    bulk (Some [Samples.happy]) s1 = (Returns (Created body2), s2) /\
    addedCount body1 = 1%nat /\
    Mem.table (world s1) = [row_of Samples.happy JNull JNull] /\
    skippedCount body2 = 0%nat /\
    totalSent body2 = 1%nat /\
    errors (results body2) =
      [error_for Samples.happy "assignments.find is not a function"].
Proof.
  eexists _, _, _, _. split; [vm_compute; reflexivity|].
  split; [vm_compute; reflexivity|]. repeat split.
Qed.

(** ** Further examples *)

(** Label propagation on an array with a number, the assignment of another
    word and two assignments of the word: the first of the two is
    written. *)
Lemma assigned_label_is_written_verbatim_witness :
  payload (JArr Samples.two_for_sprint) Samples.run_ =
    Returns {| Entry.word := "sprint";
               Entry.meaning := "to run fast";
               Entry.synonyms := ["dash"];
               Entry.group_name := JStr "movement verbs";
               Entry.sentence := JStr "They sprint to the gate." |} /\
  payload (JArr Samples.two_for_sprint) Samples.late =
    Returns {| Entry.word := "tardy";
               Entry.meaning := "late";
               Entry.synonyms := [];
               Entry.group_name := JNull;
               Entry.sentence := JNull |}.
Proof.
  split.
  - edestruct (assigned_label_is_written_verbatim (World := Scripted.t)
                 [JNum "7"; JObj [("word", JStr "elated"); ("group_name", JStr "feeling happy");
                                  ("sentence", JNull)]]
                 [] [JObj [("word", JStr "sprint"); ("group_name", JStr "speed");
                           ("sentence", JBool false)]]
                 Samples.run_ no_results (Samples.offline []))
      as (_ & Hfirst & _).
    + repeat constructor; try discriminate; intros fs [= <-]; discriminate.
    + exact (proj1 (Hfirst (JStr "movement verbs") (JStr "They sprint to the gate."))).
  - edestruct (assigned_label_is_written_verbatim (World := Scripted.t)
                 Samples.two_for_sprint [] [] Samples.late no_results (Samples.offline []))
      as (_ & _ & Hnone).
    + repeat constructor; try discriminate; intros fs [= <-]; discriminate.
    + exact (proj1 Hnone).
Defined.

(** Partial failure isolation on a scripted store: the second of three
    insertions times out. *)
Lemma second_of_three_fails_alone_witness :
  fst (for_each_word (fallback [Samples.happy; Samples.run_; Samples.late]) no_results
         [Samples.happy; Samples.run_; Samples.late]
         (Samples.offline [Samples.stored (row_of Samples.happy JNull JNull);
                           Samples.refused Samples.timeout;
                           Samples.stored (row_of Samples.late JNull JNull)])) =
    Returns {| added := [row_of Samples.happy JNull JNull; row_of Samples.late JNull JNull];
               skipped := [];
               errors := [error_for Samples.run_ (Pg.message Samples.timeout)] |}.
Proof.
  erewrite (second_of_three_fails_alone
              (fallback [Samples.happy; Samples.run_; Samples.late])
              Samples.happy Samples.run_ Samples.late);
    [reflexivity | reflexivity..].
Defined.

(** Resuming at offset 100 of 120 words: the last call. *)
Lemma chunk_call_resumes_witness :
  exists b s',
    ServerJs.bulk_chunk (Some (seq 0 120)) (Some 100) {| world := seq 0 100; console := [] |} =
      (Returns (ServerJs.BatchAdded b), s') /\
    ServerJs.totalProcessed b = 120 /\
    ServerJs.nextOffset b = None /\
    world s' = seq 0 120.
Proof.
  edestruct (chunk_call_resumes (World := list nat) (seq 0 120) 100 (seq 0 100) [])
    as (b & Hrun & Htotal & _ & _ & _); [vm_compute; split; congruence | reflexivity |].
  exists b. eexists. split; [exact Hrun|]. split; [rewrite Htotal; reflexivity|].
  split; [|reflexivity].
  apply (f_equal fst) in Hrun. vm_compute in Hrun. injection Hrun as <-. reflexivity.
Defined.

(** * More of the code *)

(** ** The reply of the model: stripping the fence *)

Lemma string_app_assoc (a b c : string) : (a +:+ b) +:+ c = a +:+ b +:+ c.
Proof.
  induction a as [|x a IH]; [reflexivity|].
  change (String x ((a +:+ b) +:+ c) = String x (a +:+ b +:+ c)). f_equal. exact IH.
Qed.

Lemma string_app_nil_r (a : string) : a +:+ EmptyString = a.
Proof.
  induction a as [|x a IH]; [reflexivity|].
  change (String x (a +:+ EmptyString) = String x a). f_equal. exact IH.
Qed.

Lemma includes_cons_false c t sub :
  includes (String c t) sub = false ->
  String.prefix sub (String c t) = false /\ includes t sub = false.
Proof. cbn [includes]. apply orb_false_iff. Qed.

(** A text without a backtick passes a removal of fences untouched. *)
Lemma remove_all_plain pat t rest :
  includes t "`" = false ->
  remove_all (String "`" pat) (t +:+ rest) 0 false =
    t +:+ remove_all (String "`" pat) rest 0 false.
Proof.
  induction t as [|c t IH]; intros Hplain; [reflexivity|].
  apply includes_cons_false in Hplain as [Hc Ht].
  change (String c t +:+ rest) with (String c (t +:+ rest)).
  cbn [remove_all andb]. cbn [String.prefix] in *.
  destruct (ascii_dec "`" c) as [->|Hne].
  - destruct t; discriminate.
  - change (String c (remove_all (String "`" pat) (t +:+ rest) 0 false) =
            String c (t +:+ remove_all (String "`" pat) rest 0 false)).
    f_equal. apply IH. exact Ht.
Qed.

(** A newline at the end completes no white space character. *)
Lemma is_space2_newline c : is_space2 c newline = false.
Proof. unfold is_space2. apply andb_false_r. Qed.

Lemma is_space3_newline_3 c1 c2 : is_space3 c1 c2 newline = false.
Proof.
  unfold is_space3. cbn [N_of_ascii newline].
  destruct (N_of_ascii c1 =? 225)%N, (N_of_ascii c1 =? 226)%N, (N_of_ascii c1 =? 227)%N,
    (N_of_ascii c1 =? 239)%N, (N_of_ascii c2 =? 154)%N, (N_of_ascii c2 =? 128)%N,
    (N_of_ascii c2 =? 129)%N, (N_of_ascii c2 =? 187)%N; reflexivity.
Qed.

Lemma is_space2_not_space c1 c2 : is_space2 c1 c2 = true -> is_space c1 = false.
Proof.
  unfold is_space2. intros H. apply andb_true_iff in H as [H _].
  apply N.eqb_eq in H. rewrite <- (ascii_N_embedding c1), H. reflexivity.
Qed.

(** What is left of [t] followed by a newline, after the white space at
    its start: nothing when [t] is white space, and what is left of [t],
    with the newline, otherwise. *)
Lemma trim_start_newline t :
  trim_start (t +:+ String newline EmptyString) =
    match trim_start t with
    | EmptyString => EmptyString
    | r => r +:+ String newline EmptyString
    end.
Proof.
  remember (String.length t) as n eqn:Hn. revert t Hn.
  induction n as [n IH] using lt_wf_ind. intros t Hn.
  destruct t as [|c1 [|c2 [|c3 r3]]].
  - reflexivity.
  - change (trim_start (String c1 (String newline EmptyString)) =
            match trim_start (String c1 EmptyString) with
            | EmptyString => EmptyString
            | r => r +:+ String newline EmptyString
            end).
    cbn [trim_start]. destruct (is_space c1); [reflexivity|].
    rewrite is_space2_newline. reflexivity.
  - change (trim_start (String c1 (String c2 (String newline EmptyString))) =
            match trim_start (String c1 (String c2 EmptyString)) with
            | EmptyString => EmptyString
            | r => r +:+ String newline EmptyString
            end).
    cbn [trim_start]. destruct (is_space c1).
    + destruct (is_space c2); [reflexivity|]. rewrite is_space2_newline. reflexivity.
    + destruct (is_space2 c1 c2); [reflexivity|].
      rewrite is_space3_newline_3. reflexivity.
  - change (String c1 (String c2 (String c3 r3)) +:+ String newline EmptyString)
      with (String c1 (String c2 (String c3 (r3 +:+ String newline EmptyString)))).
    change (String c1 (String c2 (String c3 (r3 +:+ String newline EmptyString))))
      with (String c1 (String c2 (String c3 r3 +:+ String newline EmptyString))) at 1.
    assert (H1 : trim_start (String c2 (String c3 r3) +:+ String newline EmptyString) =
                 match trim_start (String c2 (String c3 r3)) with
                 | EmptyString => EmptyString
                 | r => r +:+ String newline EmptyString
                 end).
    { apply (IH (String.length (String c2 (String c3 r3)))); [subst n; simpl; lia|reflexivity]. }
    assert (H2 : trim_start (String c3 r3 +:+ String newline EmptyString) =
                 match trim_start (String c3 r3) with
                 | EmptyString => EmptyString
                 | r => r +:+ String newline EmptyString
                 end).
    { apply (IH (String.length (String c3 r3))); [subst n; simpl; lia|reflexivity]. }
    assert (H3 : trim_start (r3 +:+ String newline EmptyString) =
                 match trim_start r3 with
                 | EmptyString => EmptyString
                 | r => r +:+ String newline EmptyString
                 end).
    { apply (IH (String.length r3)); [subst n; simpl; lia|reflexivity]. }
    change (trim_start (String c1 (String c2 (String c3 r3 +:+ String newline EmptyString))))
      with (if is_space c1
            then trim_start (String c2 (String c3 r3) +:+ String newline EmptyString)
            else if is_space2 c1 c2
                 then trim_start (String c3 r3 +:+ String newline EmptyString)
                 else if is_space3 c1 c2 c3
                      then trim_start (r3 +:+ String newline EmptyString)
                      else String c1 (String c2 (String c3 r3)) +:+ String newline EmptyString).
    change (trim_start (String c1 (String c2 (String c3 r3))))
      with (if is_space c1 then trim_start (String c2 (String c3 r3))
            else if is_space2 c1 c2 then trim_start (String c3 r3)
                 else if is_space3 c1 c2 c3 then trim_start r3
                      else String c1 (String c2 (String c3 r3))).
    destruct (is_space c1); [exact H1|].
    destruct (is_space2 c1 c2); [exact H2|].
    destruct (is_space3 c1 c2 c3); [exact H3|reflexivity].
Qed.

Lemma trim_start_newline_empty t :
  trim_start (t +:+ String newline EmptyString) = EmptyString <->
  trim_start t = EmptyString.
Proof.
  rewrite trim_start_newline.
  destruct (trim_start t); [tauto|]. split; discriminate.
Qed.

Lemma trim_end_newline u : trim_end (u +:+ String newline EmptyString) = trim_end u.
Proof.
  induction u as [|c u IH]; [reflexivity|].
  change (String c u +:+ String newline EmptyString)
    with (String c (u +:+ String newline EmptyString)).
  cbn [trim_end]. rewrite IH.
  change (String c (u +:+ String newline EmptyString))
    with (String c u +:+ String newline EmptyString).
  pose proof (trim_start_newline_empty (String c u)) as Hiff.
  destruct (trim_start (String c u +:+ String newline EmptyString)) eqn:E1;
    destruct (trim_start (String c u)) eqn:E2; try reflexivity.
  - destruct Hiff as [Hiff _]. specialize (Hiff eq_refl). discriminate.
  - destruct Hiff as [_ Hiff]. specialize (Hiff eq_refl). discriminate.
Qed.

Lemma trim_newline t : trim (t +:+ String newline EmptyString) = trim t.
Proof.
  unfold trim. rewrite trim_start_newline.
  destruct (trim_start t) as [|c r] eqn:E; [reflexivity|].
  apply trim_end_newline.
Qed.

(** The reply of the model, cleaned. For a text [t] without a backtick:
    alone it is only trimmed, and in a fence, with or without the json tag,
    the fence and its newlines go and [t] is left, trimmed. *)
Theorem fence_is_stripped t :
  includes t "`" = false ->
  cleanedText t = trim t /\
  cleanedText ("```json" +:+ String newline (t +:+ String newline "```")) = trim t /\
  cleanedText ("```" +:+ String newline (t +:+ String newline "```")) = trim t.
Proof.
  intros Hplain. unfold cleanedText.
  assert (Hself : forall pat, remove_all (String "`" pat) t 0 false = t).
  { intros pat. rewrite <- (string_app_nil_r t) at 1.
    rewrite remove_all_plain by exact Hplain. apply string_app_nil_r. }
  split; [rewrite !Hself; reflexivity|]. split.
  - change (remove_all "```json"
              ("```json" +:+ String newline (t +:+ String newline "```")) 0 false)
      with (remove_all "```json" (t +:+ String newline "```") 0 false).
    rewrite remove_all_plain by exact Hplain.
    change (remove_all "```json" (String newline "```") 0 false)
      with (String newline "```").
    rewrite remove_all_plain by exact Hplain.
    change (remove_all "```" (String newline "```") 0 false)
      with (String newline EmptyString).
    apply trim_newline.
  - change (remove_all "```json"
              ("```" +:+ String newline (t +:+ String newline "```")) 0 false)
      with (String "`" (String "`" (String "`" (String newline
              (remove_all "```json" (t +:+ String newline "```") 0 false))))).
    rewrite remove_all_plain by exact Hplain.
    change (remove_all "```json" (String newline "```") 0 false)
      with (String newline "```").
    change (remove_all "```"
              (String "`" (String "`" (String "`" (String newline
                 (t +:+ String newline "```"))))) 0 false)
      with (remove_all "```" (t +:+ String newline "```") 0 false).
    rewrite remove_all_plain by exact Hplain.
    change (remove_all "```" (String newline "```") 0 false)
      with (String newline EmptyString).
    apply trim_newline.
Qed.

(** The theorem above on the text of an array. *)
Lemma fence_is_stripped_witness :
  cleanedText ("```json" +:+ String newline ("[1, 2] " +:+ String newline "```")) = "[1, 2]".
Proof.
  exact (proj1 (proj2 (fence_is_stripped "[1, 2] " eq_refl))).
Defined.

(** ** The labels read from the store *)

Lemma unique_spec seen xs :
  NoDup (unique seen xs) /\
  forall g, g ∈ unique seen xs <-> g ∈ xs /\ g ∉ seen.
Proof.
  revert seen. induction xs as [|x xs IH]; intros seen; cbn [unique].
  - split; [constructor|]. intros g. rewrite elem_of_nil. tauto.
  - destruct (bool_decide (x ∈ seen)) eqn:E.
    + apply bool_decide_eq_true in E. destruct (IH seen) as [Hnd Hin].
      split; [exact Hnd|]. intros g. rewrite Hin, elem_of_cons.
      split; [tauto|]. intros [[->|Hg] Hs]; tauto.
    + apply bool_decide_eq_false in E. destruct (IH (x :: seen)) as [Hnd Hin].
      split.
      * constructor; [|exact Hnd]. rewrite Hin, elem_of_cons. tauto.
      * intros g. rewrite !elem_of_cons, Hin, elem_of_cons.
        destruct (decide (g = x)) as [->|Hne]; tauto.
Qed.

Lemma truthy_names_spec rows g :
  g ∈ truthy_names rows <-> Some g ∈ rows /\ g <> EmptyString.
Proof.
  unfold truthy_names. rewrite list_elem_of_omap. split.
  - intros ([[|c s]|] & Hin & Heq); try discriminate.
    injection Heq as <-. split; [exact Hin|discriminate].
  - intros [Hin Hne]. exists (Some g). split; [exact Hin|].
    destruct g; [contradiction|reflexivity].
Qed.

Lemma unique_sublist seen xs : unique seen xs `sublist_of` xs.
Proof.
  revert seen. induction xs as [|x xs IH]; intros seen; cbn [unique]; [constructor|].
  destruct (bool_decide (x ∈ seen)); [apply sublist_cons|apply sublist_skip]; apply IH.
Qed.

(** What was seen matters only as a set. *)
Lemma unique_seen_ext seen seen' xs :
  (forall x, x ∈ seen <-> x ∈ seen') -> unique seen xs = unique seen' xs.
Proof.
  revert seen seen'. induction xs as [|x xs IH]; intros seen seen' Hext; [reflexivity|].
  cbn [unique].
  destruct (bool_decide (x ∈ seen)) eqn:E; destruct (bool_decide (x ∈ seen')) eqn:E';
    rewrite ?bool_decide_eq_true, ?bool_decide_eq_false in *.
  - apply IH. exact Hext.
  - exfalso. apply E', Hext, E.
  - exfalso. apply E, Hext, E'.
  - f_equal. apply IH. intros y. rewrite !elem_of_cons, Hext. reflexivity.
Qed.

Lemma unique_app seen xs ys :
  unique seen (xs ++ ys) = unique seen xs ++ unique (xs ++ seen) ys.
Proof.
  revert seen. induction xs as [|x xs IH]; intros seen; [reflexivity|].
  cbn [app unique]. destruct (bool_decide (x ∈ seen)) eqn:E.
  - apply bool_decide_eq_true in E. rewrite IH. f_equal. apply unique_seen_ext.
    intros y. rewrite elem_of_cons, !elem_of_app.
    split; [tauto|]. intros [->|Hy]; tauto.
  - rewrite IH. cbn [app]. f_equal. f_equal. apply unique_seen_ext.
    intros y. rewrite !elem_of_cons, !elem_of_app, elem_of_cons. tauto.
Qed.

Lemma truthy_names_app rows1 rows2 :
  truthy_names (rows1 ++ rows2) = truthy_names rows1 ++ truthy_names rows2.
Proof. unfold truthy_names. apply omap_app. Qed.

(** The labels handed to the helper: each label of the rows read that is
    neither null nor empty, once, in the order of first appearance (the
    labels in front of a label are those of the rows in front of its first
    row); and none when the read returned no data. *)
Theorem existing_groups_are_the_distinct_labels rows :
  NoDup (existingGroups_of (Some rows)) /\
  (forall g, g ∈ existingGroups_of (Some rows) <-> Some g ∈ rows /\ g <> EmptyString) /\
  existingGroups_of (Some rows) `sublist_of` truthy_names rows /\
  existingGroups_of None = [] /\
  (forall pre g post,
     rows = pre ++ Some g :: post -> g <> EmptyString -> Some g ∉ pre ->
     exists before after,
       existingGroups_of (Some rows) = before ++ g :: after /\
       (forall h, h ∈ before <-> Some h ∈ pre /\ h <> EmptyString)).
Proof.
  unfold existingGroups_of. destruct (unique_spec [] (truthy_names rows)) as [Hnd Hin].
  split; [exact Hnd|]. split; [|split; [apply unique_sublist|split; [reflexivity|]]].
  - intros g. rewrite Hin, truthy_names_spec, elem_of_nil. tauto.
  - intros pre g post -> Hne Hfirst.
    rewrite truthy_names_app.
    assert (Hg : truthy_names (Some g :: post) = g :: truthy_names post).
    { unfold truthy_names. cbn [omap]. destruct g; [contradiction|reflexivity]. }
    rewrite Hg, unique_app. cbn [unique].
    rewrite bool_decide_eq_false_2.
    + eexists _, _. split; [reflexivity|].
      intros h. destruct (unique_spec [] (truthy_names pre)) as [_ Hpre].
      rewrite Hpre, truthy_names_spec, elem_of_nil. tauto.
    + rewrite app_nil_r, truthy_names_spec. tauto.
Qed.

(** ** The prompt *)

Lemma includes_app pre sub post : includes (pre +:+ sub +:+ post) sub = true.
Proof. apply includes_substring. eauto. Qed.

Lemma includes_trans s mid sub :
  includes s mid = true -> includes mid sub = true -> includes s sub = true.
Proof.
  rewrite !includes_substring. intros (p1 & q1 & ->) (p2 & q2 & ->).
  exists (p1 +:+ p2), (q2 +:+ q1). rewrite !string_app_assoc. reflexivity.
Qed.

Lemma includes_join sep xs x : x ∈ xs -> includes (join sep xs) x = true.
Proof.
  intros Hin. apply includes_substring.
  induction xs as [|y xs IH]; [inversion Hin|].
  destruct xs as [|z xs].
  - apply list_elem_of_singleton in Hin as ->. exists EmptyString, EmptyString.
    cbn [join]. rewrite string_app_nil_r. reflexivity.
  - apply elem_of_cons in Hin as [->|Hin].
    + exists EmptyString, (sep +:+ join sep (z :: xs)). reflexivity.
    + destruct (IH Hin) as (pre & post & Heq).
      exists (y +:+ sep +:+ pre), post.
      change (join sep (y :: z :: xs)) with (y +:+ sep +:+ join sep (z :: xs)).
      rewrite Heq, !string_app_assoc. reflexivity.
Qed.

(** What the prompt shows the model: every existing label, quoted, on a
    line of its own list; the words of the batch, each with its meaning; and
    the sentence that there are no groups when none was read. *)
Theorem prompt_presents_labels_and_words newWords existingGroups :
  (forall g, g ∈ existingGroups ->
     includes (prompt newWords existingGroups) ("- " +:+ quoted g) = true) /\
  (forall w, w ∈ newWords ->
     includes (prompt newWords existingGroups)
       ("Word: " +:+ quoted (NewWord.word w) +:+
        " - Meaning: " +:+ quoted (NewWord.meaning w)) = true) /\
  (existingGroups = [] ->
   includes (prompt newWords existingGroups) "No existing groups yet" = true).
Proof.
  unfold prompt, lines. split; [|split].
  - intros g Hg. destruct existingGroups as [|g0 gs]; [inversion Hg|].
    eapply includes_trans.
    + apply includes_join. do 5 apply list_elem_of_further. apply list_elem_of_here.
    + cbn [length Nat.ltb Nat.leb]. apply includes_join.
      apply (list_elem_of_fmap_2 (fun g => "- " +:+ quoted g)). exact Hg.
  - intros w Hw. eapply includes_trans.
    + apply includes_join. do 8 apply list_elem_of_further. apply list_elem_of_here.
    + apply includes_join.
      apply (list_elem_of_fmap_2
               (fun w => "Word: " +:+ quoted (NewWord.word w) +:+
                         " - Meaning: " +:+ quoted (NewWord.meaning w))).
      exact Hw.
  - intros ->. apply includes_join.
    do 5 apply list_elem_of_further. apply list_elem_of_here.
Qed.

(** ** The order of the report *)

Section Order.
Context {World : Type} `{!Platform World}.

Implicit Types (assignments : JsVal) (word : NewWord.t) (s : State World).

Lemma process_word_order assignments results word s results' s' :
  process_word assignments results word s = (Returns results', s') ->
  (length (added results') <= S (length (added results)))%nat /\
  ((skipped results' = skipped results /\ error_words results' = error_words results) \/
   (skipped results' = skipped results ++ [NewWord.word word] /\
    error_words results' = error_words results) \/
   (skipped results' = skipped results /\
    error_words results' = error_words results ++ [NewWord.word word])).
Proof.
  rewrite process_word_eq. unfold error_words.
  assert (Herr : forall msg,
    map WordError.word (errors (push_error results (error_for word msg))) =
    map WordError.word (errors results) ++ [NewWord.word word]).
  { intros msg. simpl. rewrite map_app. reflexivity. }
  destruct (payload assignments word) as [msg|row].
  - intros [= <- _]. split; [simpl; lia|]. right. right. split; [reflexivity|apply Herr].
  - destruct (insert_row row (world s)) as [[msg|reply] w]; intros [= <- _].
    + split; [simpl; lia|]. right. right. split; [reflexivity|apply Herr].
    + unfold classify. destruct (Pg.err reply) as [e|].
      * destruct (is_duplicate e).
        -- split; [simpl; lia|]. right. left. split; reflexivity.
        -- split; [simpl; lia|]. right. right. split; [reflexivity|apply Herr].
      * destruct (Pg.data reply) as [[|row' rows]|]; simpl.
        -- split; [lia|]. left. split; reflexivity.
        -- split; [rewrite length_app; simpl; lia|]. left. split; reflexivity.
        -- split; [lia|]. left. split; reflexivity.
Qed.

Lemma for_each_word_order assignments words :
  forall results s results' s',
    for_each_word assignments results words s = (Returns results', s') ->
    exists sk er,
      skipped results' = skipped results ++ sk /\
      error_words results' = error_words results ++ er /\
      sk `sublist_of` map NewWord.word words /\
      er `sublist_of` map NewWord.word words /\
      (length (added results') <= length (added results) + length words)%nat.
Proof.
  induction words as [|word rest IH]; intros results s results' s'; cbn [for_each_word].
  - unfold ret. intros [= <- _]. exists [], []. rewrite !app_nil_r.
    repeat split; try constructor. simpl. lia.
  - destruct (process_word_returns assignments results word s) as [r1 E].
    unfold bind at 1. rewrite E. intros Hrest.
    destruct (IH _ _ _ _ Hrest) as (sk & er & Hs & He & Hsk & Her & Hadd).
    destruct (process_word_order _ _ _ _ _ _ E) as [Hadd1 Hcase].
    cbn [map length].
    destruct Hcase as [[H1 H2]|[[H1 H2]|[H1 H2]]]; rewrite H1 in Hs; rewrite H2 in He.
    + exists sk, er. repeat split; try assumption; try (apply sublist_cons; assumption). lia.
    + exists (NewWord.word word :: sk), er. rewrite <- app_assoc in Hs.
      repeat split; try assumption;
        [apply sublist_skip; assumption | apply sublist_cons; assumption | lia].
    + exists sk, (NewWord.word word :: er). rewrite <- app_assoc in He.
      repeat split; try assumption;
        [apply sublist_cons; assumption | apply sublist_skip; assumption | lia].
Qed.

(** The lists of a 201 response follow the submission: the skipped words
    are submitted words in the order submitted, so are the words of the
    errors, and no more rows are added than words were sent. *)
Theorem report_keeps_submission_order words s body s' :
  bulk (Some words) s = (Returns (Created body), s') ->
  skipped (results body) `sublist_of` map NewWord.word words /\
  map WordError.word (errors (results body)) `sublist_of` map NewWord.word words /\
  (addedCount body <= totalSent body)%nat.
Proof.
  intros Hrun.
  destruct (bulk_created_inv _ _ _ _ Hrun) as (a & s1 & used & Hloop & _ & Hbody).
  destruct (for_each_word_order _ _ _ _ _ _ Hloop) as (sk & er & Hs & He & Hsk & Her & Hadd).
  unfold error_words in He. simpl in Hs, He, Hadd. rewrite Hs, He, Hbody. simpl.
  repeat split; assumption.
Qed.

(** ** When the route answers what *)

(** The enriched bulk route always answers, for a body whose [words] are
    word records.  A body without a non-empty array is refused with 400
    before any service is called.  Otherwise the answer is 500 with the
    thrown message when the read of the labels throws; and else it goes by
    what the helper returned: 500 when that is null or undefined, which has
    no [length] to read, or an object whose [length] cannot be compared with
    0; and 201 in every other case, with [totalSent] the number of words and
    [aiProcessingUsed] telling whether an array or a text is not empty,
    false for a number or a boolean, and the comparison of its [length] for
    an object. *)
Theorem bulk_always_answers word rest s :
  bulk None s = (Returns (BadRequest "Invalid input. Expected words array."), s) /\
  bulk (Some []) s = (Returns (BadRequest "Invalid input. Expected words array."), s) /\
  exists response s',
    bulk (Some (word :: rest)) s = (Returns response, s') /\
    match select_group_names (world s) with
    | (Throws msg, _) => response = ServerError msg
    | (Returns reply, w) =>
        exists assignments s1,
          getGroupNamesAndSentences (word :: rest) (existingGroups_of (Pg.data reply))
            (logged (ExistingGroups (existingGroups_of (Pg.data reply)))
                    (after_read reply w s)) = (Returns assignments, s1) /\
          let created used :=
            exists body, response = Created body /\
                         totalSent body = S (length rest) /\
                         aiProcessingUsed body = used in
          match assignments with
          | JNull =>
              response = ServerError "Cannot read properties of null (reading 'length')"
          | JUndefined =>
              response = ServerError "Cannot read properties of undefined (reading 'length')"
          | JArr items => created (negb (bool_decide (items = [])))
          | JStr text => created (negb (bool_decide (text = EmptyString)))
          | JBool _ | JNum _ => created false
          | JObj fields =>
              match obj_get fields "length" with
              | None => created false
              | Some v =>
                  match gt_zero v with
                  | Returns used => created used
                  | Throws msg => response = ServerError msg
                  end
              end
          end
    end.
Proof.
  split; [reflexivity|]. split; [reflexivity|].
  rewrite bulk_eq.
  destruct (select_group_names (world s)) as [[msg|reply] w]; [eauto|].
  destruct (bulk_with_groups_run (word :: rest) (existingGroups_of (Pg.data reply))
              (after_read reply w s)) as (a & s1 & rs & s2 & Ha & _ & ->).
  unfold settle, respond.
  exists (match length_gt_0 a with
          | Throws msg => ServerError msg
          | Returns used => Created (summary (word :: rest) used rs)
          end), s2.
  split; [destruct (length_gt_0 a); reflexivity|]. exists a, s1. split; [exact Ha|].
  destruct a as [| |b|n|text|items|fields]; cbn [length_gt_0]; try reflexivity;
    try (eexists; split; [reflexivity|]; split; reflexivity).
  - eexists. split; [reflexivity|]. split; [reflexivity|]. destruct text; reflexivity.
  - eexists. split; [reflexivity|]. split; [reflexivity|]. destruct items; reflexivity.
  - destruct (obj_get fields "length") as [v|].
    + destruct (gt_zero v) as [msg|used]; [reflexivity|].
      eexists. split; [reflexivity|]. split; reflexivity.
    + eexists. split; [reflexivity|]. split; reflexivity.
Qed.

End Order.

(** ** What the store with a unique word column keeps *)

Section MemKeeps.
Context (parse : string -> option JsVal) (gt : JsVal -> Outcome bool).

Local Abbreviation runtime := (Mem.with_runtime parse gt).

(** One iteration on that store, for any assignments. *)
Lemma mem_process_word_any assignments results word table script c :
  process_word (Platform0 := runtime) assignments results word
    {| world := {| Mem.table := table; Mem.model := script |}; console := c |} =
    match payload assignments word with
    | Throws msg =>
        (Returns (push_error results (error_for word msg)),
         {| world := {| Mem.table := table; Mem.model := script |}; console := c |})
    | Returns row =>
        if Mem.present (NewWord.word word) table
        then (Returns (push_skipped results (NewWord.word word)),
              {| world := {| Mem.table := table; Mem.model := script |}; console := c |})
        else (Returns (push_added results row),
              {| world := {| Mem.table := table ++ [row]; Mem.model := script |};
                 console := c |})
    end.
Proof.
  destruct (payload assignments word) as [msg|row] eqn:Hrow.
  - rewrite process_word_eq, Hrow. reflexivity.
  - apply mem_process_word. exact Hrow.
Qed.

(** The loop on that store: the rows added are the rows the table gains,
    each is the row built for a word of the batch, and the words of the table
    stay distinct. *)
Lemma mem_loop_persists assignments words :
  forall results table script c results' s',
    for_each_word (Platform0 := runtime) assignments results words
      {| world := {| Mem.table := table; Mem.model := script |}; console := c |} =
      (Returns results', s') ->
    exists new,
      added results' = added results ++ new /\
      Mem.table (world s') = table ++ new /\
      Mem.model (world s') = script /\
      (NoDup (map Entry.word table) -> NoDup (map Entry.word (table ++ new))) /\
      (forall e, e ∈ new -> exists word, word ∈ words /\ payload assignments word = Returns e).
Proof.
  induction words as [|word rest IH]; intros results table script c results' s';
    cbn [for_each_word].
  - unfold ret. intros [= <- <-]. exists []. rewrite !app_nil_r. simpl.
    repeat split; auto. intros e He. inversion He.
  - unfold bind at 1. rewrite mem_process_word_any.
    destruct (payload assignments word) as [msg|row] eqn:Hrow;
      [|destruct (Mem.present (NewWord.word word) table) eqn:Hpresent];
      intros Hrest; destruct (IH _ _ _ _ _ _ Hrest) as (new & Ha & Ht & Hm & Hnd & Hnew).
    + exists new. repeat split; auto.
      intros e He. destruct (Hnew e He) as (w0 & Hw0 & Hp). exists w0.
      split; [apply list_elem_of_further; exact Hw0|exact Hp].
    + exists new. repeat split; auto.
      intros e He. destruct (Hnew e He) as (w0 & Hw0 & Hp). exists w0.
      split; [apply list_elem_of_further; exact Hw0|exact Hp].
    + exists (row :: new). simpl in Ha. rewrite <- app_assoc in Ha, Ht.
      repeat split; auto.
      * intros Hnodup.
        replace (table ++ row :: new) with ((table ++ [row]) ++ new)
          by (rewrite <- app_assoc; reflexivity).
        apply Hnd.
        rewrite map_app. apply NoDup_app. split; [exact Hnodup|]. split.
        -- intros x Hx. simpl. rewrite list_elem_of_singleton. intros ->.
           unfold Mem.present in Hpresent. apply bool_decide_eq_false in Hpresent.
           rewrite (payload_word _ _ _ Hrow) in Hx. contradiction.
        -- simpl. apply NoDup_singleton.
      * intros e He. apply elem_of_cons in He as [->|He].
        -- exists word. split; [apply list_elem_of_here|exact Hrow].
        -- destruct (Hnew e He) as (w0 & Hw0 & Hp). exists w0.
           split; [apply list_elem_of_further; exact Hw0|exact Hp].
Qed.

(** The loop on that store: a word it skips is in the table, and when
    [find] throws for no word, every word of the batch is added or
    skipped. *)
Lemma mem_loop_reports assignments words :
  forall results table script c results' s',
    for_each_word (Platform0 := runtime) assignments results words
      {| world := {| Mem.table := table; Mem.model := script |}; console := c |} =
      (Returns results', s') ->
    exists new sk,
      added results' = added results ++ new /\
      skipped results' = skipped results ++ sk /\
      Mem.table (world s') = table ++ new /\
      (forall x, x ∈ sk -> x ∈ map Entry.word (table ++ new)) /\
      (searchable assignments words = true ->
       forall word, word ∈ words -> NewWord.word word ∈ map Entry.word new ++ sk).
Proof.
  induction words as [|word rest IH]; intros results table script c results' s';
    cbn [for_each_word].
  - unfold ret. intros [= <- <-]. exists [], []. rewrite !app_nil_r. simpl.
    repeat split; auto.
    + intros x Hx. inversion Hx.
    + intros _ w Hw. inversion Hw.
  - unfold bind at 1. rewrite mem_process_word_any. cbn [searchable forallb].
    destruct (payload assignments word) as [msg|row] eqn:Hrow;
      [|destruct (Mem.present (NewWord.word word) table) eqn:Hpresent];
      intros Hrest;
      destruct (IH _ _ _ _ _ _ Hrest) as (new & sk & Ha & Hs & Ht & Hsk & Hall).
    + exists new, sk. repeat split; auto. discriminate.
    + exists new, (NewWord.word word :: sk). cbn [skipped push_skipped] in Hs.
      rewrite <- app_assoc in Hs. repeat split; auto.
      * intros x Hx. apply elem_of_cons in Hx as [->|Hx]; [|apply Hsk; exact Hx].
        unfold Mem.present in Hpresent. apply bool_decide_eq_true in Hpresent.
        rewrite map_app. apply elem_of_app. left. exact Hpresent.
      * intros Hsearch w Hw. apply elem_of_app.
        apply elem_of_cons in Hw as [->|Hw].
        -- right. apply list_elem_of_here.
        -- apply (Hall Hsearch) in Hw. apply elem_of_app in Hw as [Hw|Hw];
             [left; exact Hw|right; apply list_elem_of_further; exact Hw].
    + exists (row :: new), sk. cbn [added push_added] in Ha.
      rewrite <- app_assoc in Ha, Ht. repeat split; auto.
      * intros x Hx. specialize (Hsk x Hx). rewrite <- app_assoc in Hsk. exact Hsk.
      * intros Hsearch w Hw. apply elem_of_app. cbn [map].
        apply elem_of_cons in Hw as [->|Hw].
        -- left. rewrite (payload_word _ _ _ Hrow). apply list_elem_of_here.
        -- apply (Hall Hsearch) in Hw. apply elem_of_app in Hw as [Hw|Hw];
             [left; apply list_elem_of_further; exact Hw|right; exact Hw].
Qed.

(** A submission to that store, step by step, for any script of the
    model. *)
Lemma mem_bulk_steps word rest table script c :
  let words := word :: rest in
  exists a c1 script1 rs s2,
    (match script with
     | [] | Throws _ :: _ => a = fallback words
     | Returns text :: _ =>
         a = default (fallback words) (parse (cleanedText text))
     end) /\
    for_each_word (Platform0 := runtime) a no_results words
      {| world := {| Mem.table := table; Mem.model := script1 |}; console := c1 |} =
      (Returns rs, s2) /\
    bulk (Platform0 := runtime) (Some words)
      {| world := {| Mem.table := table; Mem.model := script |}; console := c |} =
      settle (respond (Platform0 := runtime) words a rs, s2).
Proof.
  intros words. unfold words. rewrite bulk_eq.
  cbn [world console select_group_names Mem.with_runtime]. unfold Mem.select_labels.
  unfold after_read. cbn [Pg.err Pg.data Mem.table console].
  set (groups := existingGroups_of _).
  destruct (bulk_with_groups_run (Platform0 := runtime) (word :: rest) groups
              {| world := {| Mem.table := table; Mem.model := script |}; console := c |})
    as (a & s1 & rs & s2 & Ha & Hr & ->).
  rewrite getGroupNamesAndSentences_eq in Ha.
  unfold logged in Ha. cbn [world console generateContent JSON_parse Mem.with_runtime] in Ha.
  unfold Mem.generate in Ha. cbn [Mem.model Mem.table] in Ha.
  destruct script as [|[msg|text] script'].
  - injection Ha as <- <-. eexists _, _, _, rs, s2. split; [reflexivity|].
    split; [exact Hr|reflexivity].
  - injection Ha as <- <-. eexists _, _, _, rs, s2. split; [reflexivity|].
    split; [exact Hr|reflexivity].
  - destruct (parse (cleanedText text)) as [v|]; injection Ha as <- <-;
      eexists _, _, _, rs, s2; (split; [reflexivity|]); (split; [exact Hr|reflexivity]).
Qed.

End MemKeeps.

(** What is reported is what is kept. On the store with a unique word
    column, whatever the model answers: after a 201 the table is the table
    before followed by the rows of [added], in order; and after any answer
    the words of the table are still distinct. *)
Theorem added_rows_are_the_rows_persisted words table script c :
  let run := bulk (Some words)
               {| world := {| Mem.table := table; Mem.model := script |}; console := c |} in
  (forall body, fst run = Returns (Created body) ->
     Mem.table (world (snd run)) = table ++ added (results body)) /\
  (NoDup (map Entry.word table) -> NoDup (map Entry.word (Mem.table (world (snd run))))).
Proof.
  intros run. subst run. destruct words as [|word rest].
  - split; [discriminate|]. intros Hnd. exact Hnd.
  - unfold Mem.platform.
    destruct (mem_bulk_steps Json.json_parse RefRuntime.gt_zero word rest table script c)
      as (a & c1 & script1 & rs & s2 & _ & Hloop & ->).
    destruct (mem_loop_persists _ _ _ _ _ _ _ _ _ _ Hloop) as (new & Ha & Ht & _ & Hnd & _).
    simpl in Ha. unfold settle, respond.
    destruct (length_gt_0 a); cbn [fst snd]; (split; [|rewrite Ht; exact Hnd]).
    + discriminate.
    + intros body [= <-]. simpl. rewrite Ht, Ha. reflexivity.
Qed.

(** The second half of C2, on that store: when the call of the model fails,
    every entry of [added] has a null group and a null sentence. *)
Theorem failed_enrichment_adds_entries_without_labels words table msg script c body s' :
  bulk (Some words)
    {| world := {| Mem.table := table; Mem.model := Throws msg :: script |}; console := c |} =
    (Returns (Created body), s') ->
  forall e, e ∈ added (results body) ->
    Entry.group_name e = JNull /\ Entry.sentence e = JNull /\
    exists word, word ∈ words /\ e = row_of word JNull JNull.
Proof.
  destruct words as [|word rest]; [discriminate|].
  unfold Mem.platform.
  destruct (mem_bulk_steps Json.json_parse RefRuntime.gt_zero
              word rest table (Throws msg :: script) c)
    as (a & c1 & script1 & rs & s2 & -> & Hloop & ->).
  destruct (mem_loop_persists _ _ _ _ _ _ _ _ _ _ Hloop) as (new & Ha & _ & _ & _ & Hnew).
  unfold settle, respond. simpl length_gt_0. cbn iota. intros [= <- _] e He.
  simpl in He. rewrite Ha in He. simpl in He.
  destruct (Hnew e He) as (w0 & Hw0 & Hp).
  rewrite fallback_payload in Hp
    by (apply in_map; apply list_elem_of_In; exact Hw0).
  injection Hp as <-. repeat split. exists w0. split; [exact Hw0|reflexivity].
Qed.

(** ** The groups view loses no row *)

Section GroupsCount.
Context {World : Type} `{!GroupsStore World}.

Implicit Types (groups : gmap string (list GroupItem.t)) (data : list StoredRow.t).

Lemma group_sizes_insert_new groups k items :
  groups !! k = None ->
  group_sizes (<[k := items]> groups) = (length items + group_sizes groups)%nat.
Proof.
  intros Hnone. unfold group_sizes.
  rewrite (map_fold_insert_L
             (fun (_ : string) (l : list GroupItem.t) (n : nat) => (length l + n)%nat));
    [reflexivity| |exact Hnone].
  intros. lia.
Qed.

Lemma group_sizes_insert_old groups k old items :
  groups !! k = Some old ->
  (group_sizes (<[k := items]> groups) + length old = length items + group_sizes groups)%nat.
Proof.
  intros Hsome. rewrite <- insert_delete_eq.
  rewrite group_sizes_insert_new by apply lookup_delete_eq.
  unfold group_sizes at 2.
  rewrite (map_fold_delete_L
             (fun (_ : string) (l : list GroupItem.t) (n : nat) => (length l + n)%nat)
             0%nat k old groups); [unfold group_sizes; lia| |exact Hsome].
  intros. lia.
Qed.

Lemma forEach_group_sizes data groups groups' :
  forEach_group groups data = Returns groups' ->
  group_sizes groups' = (group_sizes groups + length data)%nat.
Proof.
  revert groups. induction data as [|row rest IH]; intros groups; cbn [forEach_group].
  - intros [= <-]. simpl. lia.
  - unfold group_step. set (k := key_of (StoredRow.group_name row)).
    destruct (groups !! k) as [items|] eqn:E.
    + intros Hrest. rewrite (IH _ Hrest). cbn [length].
      pose proof (group_sizes_insert_old groups k items (items ++ [item_of row]) E) as H.
      rewrite length_app in H. simpl in H. lia.
    + destruct (inherited k); [discriminate|].
      intros Hrest. rewrite (IH _ Hrest). cbn [length].
      rewrite group_sizes_insert_new by exact E. simpl. lia.
Qed.

(** Whenever the groups view answers 200, the groups of the response hold
    as many elements as rows were fetched: no row is dropped and none is put
    in two groups. *)
Theorem groups_view_keeps_every_row s groups s' :
  groups_view s = (Returns (GroupsOk groups), s') ->
  exists data,
    fst (select_grouped (world s)) = Returns {| Pg.data := Some data; Pg.err := None |} /\
    group_sizes groups = length data.
Proof.
  unfold groups_view, try_catch, bind at 1, await at 1.
  destruct (select_grouped (world s)) as [[msg|[data err]] w]; [discriminate|].
  cbn [Pg.err Pg.data]. destruct err as [e|]; [discriminate|].
  unfold bind, eval, ret. destruct data as [data|]; [|discriminate].
  destruct (forEach_group ∅ data) as [msg|g] eqn:E; [discriminate|].
  intros [= <- _]. exists data. split; [reflexivity|].
  rewrite (forEach_group_sizes _ _ _ E). reflexivity.
Qed.

(** When the groups view answers what. The store's error gives 400 with its
    message; a row named like an inherited property, with no row of that name
    before it, gives 500; rows with plain names give 200. *)
Theorem groups_view_always_answers s :
  exists response s',
    groups_view s = (Returns response, s') /\
    match fst (select_grouped (world s)) with
    | Throws msg => response = GroupsServerError msg
    | Returns reply =>
        match Pg.err reply, Pg.data reply with
        | Some error, _ => response = GroupsBadRequest (Pg.message error)
        | None, None => exists msg, response = GroupsServerError msg
        | None, Some data =>
            (plain_names data -> exists groups, response = GroupsOk groups) /\
            (forall pre row post,
               data = pre ++ row :: post -> plain_names pre ->
               inherited (key_of (StoredRow.group_name row)) = true ->
               exists msg, response = GroupsServerError msg)
        end
    end.
Proof.
  unfold groups_view, try_catch, bind at 1, await at 1.
  destruct (select_grouped (world s)) as [[msg|[data err]] w]; cbn [fst]; [eauto|].
  cbn [Pg.err Pg.data]. destruct err as [e|]; [eauto|].
  unfold bind, eval, ret. destruct data as [data|]; [|eauto].
  destruct (forEach_group ∅ data) as [msg|g] eqn:E.
  - eexists _, _. split; [reflexivity|]. split; [|eauto].
    intros Hplain. destruct (forEach_group_filled data ∅ Hplain) as (g & Hg & _).
    congruence.
  - eexists _, _. split; [reflexivity|]. split; [eauto|].
    intros pre row post -> Hplain Hinh. exfalso.
    destruct (forEach_group_filled pre ∅ Hplain) as (g1 & Hg1 & Hget).
    assert (Hnone : g1 !! key_of (StoredRow.group_name row) = None).
    { rewrite Hget, lookup_empty. unfold filled, property, bucket.
      destruct (filter _ pre) as [|r0 rs] eqn:Ef; [reflexivity|].
      exfalso.
      assert (Hr0 : r0 ∈ filter (fun r => key_of (StoredRow.group_name r) =
                                          key_of (StoredRow.group_name row)) pre)
        by (rewrite Ef; apply list_elem_of_here).
      apply list_elem_of_filter in Hr0 as [Hk Hin].
      pose proof Hplain as Hp. unfold plain_names in Hp.
      rewrite Forall_forall in Hp. specialize (Hp r0 Hin).
      rewrite Hk in Hp. congruence. }
    assert (Hthrow : forall groups0 l1 l2 g0,
              forEach_group groups0 l1 = Returns g0 ->
              forEach_group groups0 (l1 ++ l2) = forEach_group g0 l2).
    { intros groups0 l1. revert groups0.
      induction l1 as [|r l1 IH]; intros groups0 l2 g0; cbn [forEach_group app].
      - intros [= <-]. reflexivity.
      - destruct (group_step groups0 r); [discriminate|]. apply IH. }
    rewrite (Hthrow _ _ _ _ Hg1) in E.
    rewrite (forEach_group_inherited _ _ _ Hnone Hinh) in E. discriminate.
Qed.

End GroupsCount.

(** ** The batches of server.js, for every offset *)

Section ChunkMore.
Import ServerJs.
Context {World Word Row : Type} `{!BatchStore World Word Row}.

Implicit Types (words : list Word).

Lemma batches_concat words m j :
  concat (map (fun k : nat => take 50 (drop (50 * k) words)) (seq j m)) =
    take (50 * m) (drop (50 * j) words).
Proof.
  revert j. induction m as [|m IH]; intros j; [reflexivity|].
  cbn [seq map concat]. rewrite IH.
  replace (50 * S j)%nat with (50 * j + 50)%nat by lia.
  rewrite <- drop_drop, take_take_drop. f_equal. lia.
Qed.

(** Whatever the offset, negative ones included, a batch has at most 50
    words and is a run of consecutive words of the array; batches at the
    multiples of 50 are the array cut in pieces; and a call from an offset at
    or past the end answers 200 with that offset and does not call the
    store. *)
Theorem batches_cut_the_words words :
  (forall offset : Z,
     (length (batch_of words offset) <= 50)%nat /\
     exists pre post, words = pre ++ batch_of words offset ++ post) /\
  (forall m : nat,
     (length words <= 50 * m)%nat ->
     concat (map (fun k : nat => batch_of words (50 * Z.of_nat k)) (seq 0 m)) = words) /\
  (forall (offset : Z) s,
     words <> [] -> Z.of_nat (length words) <= offset ->
     bulk_chunk (Some words) (Some offset) s = (Returns (NoMoreWords offset), s)).
Proof.
  split; [|split].
  - intros offset. unfold batch_of, slice.
    set (len := Z.of_nat (length words)).
    set (k := if offset <? 0 then Z.max (len + offset) 0 else Z.min offset len).
    set (final := if offset + 50 <? 0 then Z.max (len + (offset + 50)) 0
                  else Z.min (offset + 50) len).
    split.
    + rewrite length_take. apply Nat.le_trans with (Z.to_nat (final - k)); [lia|].
      subst k final.
      destruct (Z.ltb_spec offset 0), (Z.ltb_spec (offset + 50) 0); lia.
    + exists (take (Z.to_nat k) words),
             (drop (Z.to_nat (final - k)) (drop (Z.to_nat k) words)).
      rewrite take_drop, take_drop. reflexivity.
  - intros m Hlen.
    rewrite (map_ext _ (fun k : nat => take 50 (drop (50 * k) words))).
    + rewrite batches_concat. simpl. rewrite drop_0. apply take_ge. lia.
    + intros k. rewrite batch_of_take_drop by lia. do 2 f_equal. lia.
  - intros offset s Hne Hpast. unfold bulk_chunk.
    destruct words as [|word rest]; [contradiction|].
    unfold try_catch. cbn [default from_option id]. cbv zeta.
    rewrite bool_decide_eq_true_2; [destruct s; reflexivity|].
    rewrite batch_of_take_drop by lia. rewrite drop_ge by lia. reflexivity.
Qed.

End ChunkMore.

(** ** The listing route *)

Section ListingFacts.
Context {World : Type} `{!Page.ListStore World}.

Lemma ceil_div_bounds (c limit : Z) :
  0 < limit ->
  (Number.ceil_div c limit - 1) * limit < c <= Number.ceil_div c limit * limit.
Proof.
  intros Hl. unfold Number.ceil_div.
  pose proof (Z.div_mod (- c) limit ltac:(lia)) as Hdm.
  pose proof (Z.mod_pos_bound (- c) limit Hl) as Hb.
  nia.
Qed.

(** The run of the route when both queries answer. *)
Lemma get_vocabulary_ok default_limit query_page query_limit s c w1 data w2 :
  let page := Number.or_default (Number.parseInt query_page) 1 in
  let limit := Number.or_default (Number.parseInt query_limit) default_limit in
  Page.select_count (world s) =
    (Returns {| Page.count := Some c; Page.err := None |}, w1) ->
  Page.select_range ((page - 1) * limit) (page * limit - 1) w1 =
    (Returns {| Pg.data := data; Pg.err := None |}, w2) ->
  Page.get_vocabulary default_limit query_page query_limit s =
    (Returns (Page.Ok data {| Page.page := page; Page.limit := limit;
                              Page.total := Some c;
                              Page.totalPages := Number.ceil_div c limit;
                              Page.hasMore := page * limit <? c |}),
     {| world := w2; console := console s |}).
Proof.
  intros page limit Hcount Hrange.
  unfold Page.get_vocabulary, try_catch. cbv zeta. fold page limit.
  unfold bind at 1, await at 1. rewrite Hcount. cbn [Page.err Page.count].
  unfold bind at 1, await at 1. cbn [world console].
  replace ((page - 1) * limit + limit - 1) with (page * limit - 1) by lia.
  rewrite Hrange. cbn [Pg.err Pg.data default from_option id].
  replace ((page - 1) * limit + limit) with (page * limit) by lia. reflexivity.
Qed.

(** The page of a listing. With a page and a limit of at least 1 and a
    store that counts [c] rows, all within the safe integers up to the end
    [page * limit] of the page, the route asks for the rows from
    [(page - 1) * limit] to [page * limit - 1], passes on what it gets, and
    reports a number of pages that is the least to hold [c] rows; [hasMore]
    says exactly that rows remain after this page, which is exactly that the
    page is not the last. *)
Theorem page_metadata_is_consistent
    default_limit query_page query_limit s c w1 data w2 :
  let page := Number.or_default (Number.parseInt query_page) 1 in
  let limit := Number.or_default (Number.parseInt query_limit) default_limit in
  1 <= page -> 1 <= limit -> 0 <= c ->
  Number.safe (page * limit) -> Number.safe c ->
  Page.select_count (world s) =
    (Returns {| Page.count := Some c; Page.err := None |}, w1) ->
  Page.select_range ((page - 1) * limit) (page * limit - 1) w1 =
    (Returns {| Pg.data := data; Pg.err := None |}, w2) ->
  exists pages more,
    Page.get_vocabulary default_limit query_page query_limit s =
      (Returns (Page.Ok data {| Page.page := page; Page.limit := limit;
                                Page.total := Some c; Page.totalPages := pages;
                                Page.hasMore := more |}),
       {| world := w2; console := console s |}) /\
    (more = true <-> page * limit < c) /\
    (more = true <-> page < pages) /\
    (pages - 1) * limit < c <= pages * limit /\
    (c = 0 <-> pages = 0) /\
    Number.safe page /\ Number.safe limit /\ Number.safe pages /\
    Number.safe ((page - 1) * limit) /\ Number.safe (page * limit - 1).
Proof.
  intros page limit Hp Hl Hc Hend Hcsafe Hcount Hrange.
  exists (Number.ceil_div c limit), (page * limit <? c).
  pose proof (ceil_div_bounds c limit ltac:(lia)) as Hb.
  split; [eapply get_vocabulary_ok; eassumption|].
  split; [apply Z.ltb_lt|]. split; [rewrite Z.ltb_lt; nia|]. split; [exact Hb|].
  split; [nia|].
  unfold Number.safe, Number.MAX_SAFE_INTEGER in *.
  assert (0 <= Number.ceil_div c limit <= c) by nia.
  assert (0 <= (page - 1) * limit <= page * limit) by nia.
  assert (page <= page * limit) by nia.
  assert (limit <= page * limit) by nia.
  repeat split; lia.
Qed.

End ListingFacts.

(** The pages of a table. On a table that answers, with a limit of at
    least 1 such that the number of rows and the limit together are a safe
    integer, a page between 1 and the number of pages is the rows of the
    table at its positions, at least one row and at most [limit]; the
    response counts the rows of the table, the table is left as it was, and
    [hasMore] is false on the last page only. *)
Theorem page_is_its_rows_of_the_table default_limit query_page query_limit table c0 :
  let page := Number.or_default (Number.parseInt query_page) 1 in
  let limit := Number.or_default (Number.parseInt query_limit) default_limit in
  let pages := Number.ceil_div (Z.of_nat (length table)) limit in
  1 <= limit -> 1 <= page <= pages ->
  Number.safe (Z.of_nat (length table) + limit) ->
  exists rows more,
    Page.get_vocabulary default_limit query_page query_limit
      {| world := table; console := c0 |} =
      (Returns (Page.Ok (Some rows)
                  {| Page.page := page; Page.limit := limit;
                     Page.total := Some (Z.of_nat (length table));
                     Page.totalPages := pages; Page.hasMore := more |}),
       {| world := table; console := c0 |}) /\
    rows = take (Z.to_nat limit) (drop (Z.to_nat ((page - 1) * limit)) table) /\
    (0 < length rows <= Z.to_nat limit)%nat /\
    (more = false <-> page = pages) /\
    Number.safe page /\ Number.safe pages /\ Number.safe (page * limit).
Proof.
  intros page limit pages Hl Hp Hsafe.
  pose proof (ceil_div_bounds (Z.of_nat (length table)) limit ltac:(lia)) as Hb.
  fold pages in Hb.
  assert (Hoff : 0 <= (page - 1) * limit < Z.of_nat (length table)).
  { assert ((page - 1) * limit <= (pages - 1) * limit)
      by (apply Z.mul_le_mono_nonneg_r; lia).
    nia. }
  eexists _, (page * limit <? Z.of_nat (length table)). split.
  - eapply (get_vocabulary_ok (World := list StoredRow.t) default_limit query_page
              query_limit {| world := table; console := c0 |}); [reflexivity|].
    fold page limit. cbn [Page.select_range ListRef.store]. unfold ListRef.range.
    replace ((0 <=? (page - 1) * limit) && ((page - 1) * limit <=? page * limit - 1 + 1))
      with true; [reflexivity|].
    symmetry. apply andb_true_iff. rewrite !Z.leb_le. nia.
  - replace (page * limit - 1 - (page - 1) * limit + 1) with limit by ring.
    split; [reflexivity|]. split.
    + rewrite length_take, length_drop. cbn [world].
      revert Hoff. generalize ((page - 1) * limit). intros off Hoff.
      split; [apply Nat.min_glb_lt; lia|lia].
    + split.
      * rewrite Z.ltb_ge. split; [|intros ->; lia].
        intros Hge. destruct (Z.eq_dec page pages) as [|Hne]; [assumption|].
        assert (page * limit <= (pages - 1) * limit)
          by (apply Z.mul_le_mono_nonneg_r; lia).
        lia.
      * unfold Number.safe, Number.MAX_SAFE_INTEGER in *.
        assert (page * limit <= pages * limit)
          by (apply Z.mul_le_mono_nonneg_r; lia).
        assert (page <= page * limit) by nia.
        assert (pages <= pages * limit) by nia.
        repeat split; lia.
Qed.

(** ** Deleting what a submission wrote *)

Lemma filter_word_absent (table : list Entry.t) w :
  w ∉ map Entry.word table ->
  filter (fun x => Entry.word x = w) table = [] /\
  filter (fun x => Entry.word x <> w) table = table.
Proof.
  induction table as [|x table IH]; intros Hw; [split; reflexivity|].
  cbn [map] in Hw. apply not_elem_of_cons in Hw as [Hne Hw].
  destruct (IH Hw) as [H1 H2]. rewrite !filter_cons.
  rewrite decide_False by congruence. rewrite decide_True by congruence.
  rewrite H1, H2. split; reflexivity.
Qed.

Lemma filter_word_present (table : list Entry.t) w :
  NoDup (map Entry.word table) -> w ∈ map Entry.word table ->
  exists e, e ∈ table /\ Entry.word e = w /\
            filter (fun x => Entry.word x = w) table = [e] /\
            w ∉ map Entry.word (filter (fun x => Entry.word x <> w) table).
Proof.
  induction table as [|x table IH]; intros Hnd Hw; [inversion Hw|].
  cbn [map] in Hnd, Hw. apply NoDup_cons in Hnd as [Hx Hnd]. rewrite !filter_cons.
  destruct (decide (Entry.word x = w)) as [Heq|Hne].
  - subst w. destruct (filter_word_absent table (Entry.word x) Hx) as [H1 H2].
    exists x. rewrite H1, H2. rewrite decide_False by tauto.
    repeat split; [apply list_elem_of_here|exact Hx].
  - apply elem_of_cons in Hw as [Hw|Hw]; [congruence|].
    destruct (IH Hnd Hw) as (e & He & Hword & Hf & Hgone).
    exists e. rewrite decide_True by exact Hne.
    repeat split; [apply list_elem_of_further; exact He|exact Hword|exact Hf|].
    cbn [map]. apply not_elem_of_cons. split; [congruence|exact Hgone].
Qed.

(** The delete route on the store with a unique [word] column: what the
    route answers and what it leaves. *)
Lemma mem_delete_word w table script c :
  Delete.delete_word w
    {| world := {| Mem.table := table; Mem.model := script |}; console := c |} =
    (Returns (match filter (fun x => Entry.word x = w) table with
              | [] => Delete.NotFound
              | row :: _ => Delete.Deleted row
              end),
     {| world := {| Mem.table := filter (fun x => Entry.word x <> w) table;
                    Mem.model := script |};
        console := c |}).
Proof.
  unfold Delete.delete_word, try_catch, bind at 1, await at 1.
  cbn [world console Delete.delete_by_word MemDelete.store]. unfold MemDelete.delete.
  cbn [Pg.err Pg.data Mem.table Mem.model]. unfold bind, eval, ret.
  destruct (filter (fun x => Entry.word x = w) table); reflexivity.
Qed.

(** Two rows of a table with distinct words are one when they carry one
    word. *)
Lemma same_word_same_row (table : list Entry.t) x y :
  NoDup (map Entry.word table) -> x ∈ table -> y ∈ table ->
  Entry.word x = Entry.word y -> x = y.
Proof.
  induction table as [|z table IH]; intros Hnd Hx Hy Heq; [inversion Hx|].
  cbn [map] in Hnd. apply NoDup_cons in Hnd as [Hz Hnd].
  apply elem_of_cons in Hx as [->|Hx]; apply elem_of_cons in Hy as [->|Hy].
  - reflexivity.
  - exfalso. apply Hz. rewrite Heq. apply (list_elem_of_fmap_2 Entry.word). exact Hy.
  - exfalso. apply Hz. rewrite <- Heq. apply (list_elem_of_fmap_2 Entry.word). exact Hx.
  - apply IH; assumption.
Qed.

Section SubmitThenDelete.
Context (parse : string -> option JsVal) (gt : JsVal -> Outcome bool).

Local Abbreviation runtime := (Mem.with_runtime parse gt).

(** Submitting and deleting. On the store with a unique [word] column,
    whatever the model answers and whatever the runtime's [JSON.parse] is:
    after a 201, the delete of a word that the report lists under [added] or
    [skipped] answers 200 with the row of that word (the entry of [added],
    when it is one), takes that row out of the table and no other, and a
    second delete of the word answers 404 and leaves the table alone.  When
    the replies of the model are ones [find] can search, every submitted
    word is listed under [added] or [skipped]. *)
Theorem delete_finds_every_reported_word words table script c body s1 w :
  bulk (Platform0 := runtime) (Some words)
    {| world := {| Mem.table := table; Mem.model := script |}; console := c |} =
    (Returns (Created body), s1) ->
  NoDup (map Entry.word table) ->
  w ∈ map Entry.word (added (results body)) ++ skipped (results body) ->
  let first := Delete.delete_word w s1 in
  let second := Delete.delete_word w (snd first) in
  (exists e,
     e ∈ Mem.table (world s1) /\ Entry.word e = w /\
     (forall a, a ∈ added (results body) -> Entry.word a = w -> a = e) /\
     fst first = Returns (Delete.Deleted e) /\
     (forall x, x ∈ Mem.table (world (snd first)) <->
                x ∈ Mem.table (world s1) /\ Entry.word x <> w)) /\
  fst second = Returns Delete.NotFound /\
  Mem.table (world (snd second)) = Mem.table (world (snd first)) /\
  (Forall (fun o => Mem.usable parse words o = true) script ->
   forall word, word ∈ words ->
     NewWord.word word ∈ map Entry.word (added (results body)) ++ skipped (results body)).
Proof.
  intros Hrun Hnd Hw first second.
  destruct words as [|word0 rest]; [discriminate|].
  destruct (mem_bulk_steps parse gt word0 rest table script c)
    as (a & c1 & script1 & rs & s2 & Hfrom & Hloop & Hsteps).
  rewrite Hsteps in Hrun. unfold settle, respond in Hrun.
  destruct (length_gt_0 a) as [msg|used] eqn:Hused; [discriminate|].
  injection Hrun as <- <-. cbn [results summary] in *.
  destruct (mem_loop_persists _ _ _ _ _ _ _ _ _ _ Hloop) as (new & Ha & Ht & _ & Hnd' & _).
  destruct (mem_loop_reports _ _ _ _ _ _ _ _ _ _ Hloop)
    as (new' & sk & Ha' & Hs & _ & Hsk & Hall).
  cbn [added skipped no_results app] in Ha, Ha', Hs.
  assert (new' = new) as -> by congruence.
  specialize (Hnd' Hnd).
  assert (Hpresent : w ∈ map Entry.word (table ++ new)).
  { rewrite Ha, Hs in Hw. apply elem_of_app in Hw as [Hw|Hw]; [|apply Hsk; exact Hw].
    rewrite map_app. apply elem_of_app. right. exact Hw. }
  destruct s2 as [[table2 script2] c2]. cbn [world Mem.table] in Ht. subst table2.
  destruct (filter_word_present _ _ Hnd' Hpresent) as (e & He & Hword & Hf & Hgone).
  subst second first. rewrite mem_delete_word. cbn [fst snd]. rewrite mem_delete_word.
  cbn [fst snd world Mem.table]. rewrite Hf.
  destruct (filter_word_absent _ _ Hgone) as [H1 H2]. rewrite H1, H2.
  split; [|split; [reflexivity|split; [reflexivity|]]].
  - exists e. split; [exact He|]. split; [exact Hword|]. split; [|split; [reflexivity|]].
    + intros x Hx Hxw. rewrite Ha in Hx.
      apply (same_word_same_row (table ++ new)); [exact Hnd'| |exact He|congruence].
      apply elem_of_app. right. exact Hx.
    + intros x. rewrite list_elem_of_filter. tauto.
  - intros Husable word Hin. rewrite Ha, Hs. apply Hall; [|exact Hin].
    destruct script as [|[msg|text] script'].
    + subst a. apply searchable_fallback.
    + subst a. apply searchable_fallback.
    + apply Forall_cons in Husable as [Ho _]. unfold Mem.usable in Ho. subst a.
      destruct (parse (cleanedText text)) as [v|]; [exact Ho|apply searchable_fallback].
Qed.

End SubmitThenDelete.

(** ** The properties above, run on concrete worlds *)

(** The order of the report, on a batch with a repeated word. *)
Lemma report_keeps_submission_order_witness :
  exists body,
    fst (bulk (Some [Samples.happy; Samples.run_; Samples.happy])
           (Mem.start {| Mem.table := [row_of Samples.run_ JNull JNull]; Mem.model := [] |})) =
      Returns (Created body) /\
    skipped (results body) `sublist_of` ["elated"; "sprint"; "elated"] /\
    skipped (results body) = ["sprint"; "elated"].
Proof.
  destruct (bulk (Some [Samples.happy; Samples.run_; Samples.happy])
              (Mem.start {| Mem.table := [row_of Samples.run_ JNull JNull];
                            Mem.model := [] |}))
    as [[msg|[body|e|d]] s'] eqn:E; try (vm_compute in E; discriminate).
  exists body. split; [reflexivity|].
  split; [exact (proj1 (report_keeps_submission_order _ _ _ _ E))|].
  vm_compute in E. injection E as <- _. reflexivity.
Defined.

(** A failed call of the model, a fresh word: the entry added has no
    labels. *)
Lemma failed_enrichment_adds_entries_without_labels_witness :
  exists body e,
    fst (bulk (Some [Samples.happy])
           (Mem.start {| Mem.table := []; Mem.model := [Throws "quota exceeded"] |})) =
      Returns (Created body) /\
    added (results body) = [e] /\
    Entry.group_name e = JNull /\ Entry.sentence e = JNull.
Proof.
  destruct (bulk (Some [Samples.happy])
              (Mem.start {| Mem.table := []; Mem.model := [Throws "quota exceeded"] |}))
    as [[msg|[body|e|d]] s'] eqn:E; try (vm_compute in E; discriminate).
  pose proof (failed_enrichment_adds_entries_without_labels _ _ _ _ _ _ _ E) as Hnull.
  assert (Hadded : added (results body) = [row_of Samples.happy JNull JNull]).
  { vm_compute in E. injection E as <- _. reflexivity. }
  exists body, (row_of Samples.happy JNull JNull).
  split; [reflexivity|]. split; [exact Hadded|].
  destruct (Hnull (row_of Samples.happy JNull JNull)) as (Hg & Hs & _).
  - rewrite Hadded. apply list_elem_of_here.
  - split; assumption.
Defined.

(** The groups view on two rows of one group and one of another: three
    elements in all. *)
Lemma groups_view_keeps_every_row_witness :
  exists groups,
    fst (groups_view {| world := [Samples.glad; Samples.stray; Samples.glad;
                                  Samples.merry];
                        console := [] |}) = Returns (GroupsOk groups) /\
    group_sizes groups = 3%nat.
Proof.
  destruct (groups_view {| world := [Samples.glad; Samples.stray; Samples.glad;
                                     Samples.merry];
                           console := [] |})
    as [[msg|[groups|e|d]] s'] eqn:E; try (vm_compute in E; discriminate).
  exists groups. split; [reflexivity|].
  destruct (groups_view_keeps_every_row _ _ _ E) as (data & Hdata & ->).
  vm_compute in Hdata. injection Hdata as <-. reflexivity.
Defined.

(** The second page of five rows, two to a page; the limit comes as the
    first of two values. *)
Lemma page_metadata_is_consistent_witness :
  exists data,
    fst (Page.get_vocabulary 50 (Number.Text "2")
           (Number.Several [Number.Text " 2"; Number.Text "7"])
           {| world := [Samples.glad; Samples.stray; Samples.builder;
                        Samples.merry; Samples.glad];
              console := [] |}) =
      Returns (Page.Ok data {| Page.page := 2; Page.limit := 2; Page.total := Some 5;
                               Page.totalPages := 3; Page.hasMore := true |}).
Proof.
  edestruct (page_metadata_is_consistent (World := list StoredRow.t) 50 (Number.Text "2")
               (Number.Several [Number.Text " 2"; Number.Text "7"])
               {| world := [Samples.glad; Samples.stray; Samples.builder;
                            Samples.merry; Samples.glad];
                  console := [] |} 5)
    as (pages & more & Hrun & Hmore & _ & Hpages & _);
    [vm_compute; discriminate | vm_compute; discriminate | lia
    | vm_compute; split; discriminate | vm_compute; split; discriminate
    | reflexivity | reflexivity |].
  eexists. rewrite Hrun. cbn [fst].
  change (Number.or_default
            (Number.parseInt (Number.Several [Number.Text " 2"; Number.Text "7"])) 50)
    with 2 in Hpages.
  assert (pages = 3) as -> by lia.
  assert (more = true) as -> by (apply Hmore; reflexivity).
  reflexivity.
Defined.

(** The last page of the same table, and a request without parameters. *)
Lemma page_is_its_rows_of_the_table_witness :
  fst (Page.get_vocabulary 50 (Number.Text "3") (Number.Text "2")
         {| world := [Samples.glad; Samples.stray; Samples.builder;
                      Samples.merry; Samples.glad];
            console := [] |}) =
    Returns (Page.Ok (Some [Samples.glad])
               {| Page.page := 3; Page.limit := 2; Page.total := Some 5;
                  Page.totalPages := 3; Page.hasMore := false |}) /\
  fst (Page.get_vocabulary 30 Number.Missing Number.Missing
         {| world := [Samples.glad; Samples.stray]; console := [] |}) =
    Returns (Page.Ok (Some [Samples.glad; Samples.stray])
               {| Page.page := 1; Page.limit := 30; Page.total := Some 2;
                  Page.totalPages := 1; Page.hasMore := false |}).
Proof.
  split.
  - edestruct (page_is_its_rows_of_the_table 50 (Number.Text "3") (Number.Text "2")
                 [Samples.glad; Samples.stray; Samples.builder; Samples.merry; Samples.glad]
                 []) as (rows & more & Hrun & -> & _ & Hmore & _);
      [vm_compute; discriminate | vm_compute; split; discriminate
      | vm_compute; split; discriminate |].
    rewrite Hrun. cbn [fst].
    assert (more = false) as -> by (apply Hmore; reflexivity).
    reflexivity.
  - edestruct (page_is_its_rows_of_the_table 30 Number.Missing Number.Missing
                 [Samples.glad; Samples.stray] [])
      as (rows & more & Hrun & -> & _ & Hmore & _);
      [vm_compute; discriminate | vm_compute; split; discriminate
      | vm_compute; split; discriminate |].
    rewrite Hrun. cbn [fst].
    assert (more = false) as -> by (apply Hmore; reflexivity).
    reflexivity.
Defined.

(** Submitting two words while the model is down, and deleting the second,
    twice. *)
Lemma delete_finds_every_reported_word_witness :
  let submitted :=
    bulk (Some [Samples.happy; Samples.run_])
      (Mem.start {| Mem.table := []; Mem.model := [] |}) in
  let first := Delete.delete_word "sprint" (snd submitted) in
  let second := Delete.delete_word "sprint" (snd first) in
  fst first = Returns (Delete.Deleted (row_of Samples.run_ JNull JNull)) /\
  Mem.table (world (snd first)) = [row_of Samples.happy JNull JNull] /\
  fst second = Returns Delete.NotFound /\
  Mem.table (world (snd second)) = [row_of Samples.happy JNull JNull].
Proof.
  intros submitted first second.
  destruct submitted as [[msg|[body|e|d]] s1] eqn:E; try (vm_compute in E; discriminate).
  assert (Hbody : added (results body) =
                    [row_of Samples.happy JNull JNull; row_of Samples.run_ JNull JNull]).
  { vm_compute in E. injection E as <- _. reflexivity. }
  destruct (delete_finds_every_reported_word Json.json_parse RefRuntime.gt_zero
              [Samples.happy; Samples.run_] [] [] [] body s1 "sprint" E)
    as ((e & _ & _ & Hsame & Hfirst & _) & Hsecond & Htable & _).
  - constructor.
  - rewrite Hbody. apply elem_of_app. left.
    apply list_elem_of_further, list_elem_of_here.
  - rewrite <- (Hsame (row_of Samples.run_ JNull JNull)) in Hfirst.
    + split; [exact Hfirst|].
      assert (Hleft : Mem.table (world (snd first)) = [row_of Samples.happy JNull JNull]).
      { subst first. cbn [snd]. vm_compute in E. injection E as _ <-.
        vm_compute. reflexivity. }
      split; [exact Hleft|]. split; [exact Hsecond|].
      subst second first. cbn [snd] in *. rewrite Htable. exact Hleft.
    + rewrite Hbody. apply list_elem_of_further, list_elem_of_here.
    + reflexivity.
Defined.
